(** * Hypha spike "persistence 1": a shallow embedding of the node logic

    The development follows the repository's files:

    - [Json]      lib/utils.js  (JSON with Buffer support)
    - [Crypto]    lib/crypto.js (secretbox encrypt / decrypt)
    - [AlwaysOn]  always-on/index.js (settings, discovery record, sign-up)
    - [Browser]   browser/index.js (seen-set, authorisation requests)
    - [Channel]   the ephemeral channel of the specification, section 4.5
    - [Log]       the append-only log of the specification, section 4.1

    JavaScript values are modelled as trees, buffers as lists of bytes,
    objects used as dictionaries as [gmap]s, handlers as state-passing
    functions that return the effects they perform. *)

From Stdlib Require Import ZArith QArith Qcanon String Ascii List Lia.
From Stdlib.Strings Require Import Byte.
From Stdlib Require Import DecimalString.
From stdpp Require Import gmap strings list.

Set Warnings "-register-all".

Close Scope Q_scope.
Close Scope Qc_scope.
Open Scope string_scope.
Open Scope list_scope.

(* ===================================================================== *)
(** * JSON documents and JavaScript values (lib/utils.js) *)
(* ===================================================================== *)

#[global] Instance byte_eq_dec : EqDecision byte := Byte.byte_eq_dec.

Module Json.

(** A JSON document: what a serialised string denotes (a string that is
    not JSON makes [JSON.parse] throw, and denotes nothing).  Numbers are
    the rationals a JSON number literal can write; the members of an
    object are listed in the order of its keys. *)
Inductive json : Type :=
| JNull
| JBool (b : bool)
| JNum (q : Qc)
| JStr (s : string)
| JArr (xs : list json)
| JObj (ps : list (string * json)).

(** The JavaScript values that [JSON.stringify] serialises: JSON data, Node
    [Buffer]s (byte arrays) and [Date]s (carried by their ISO string). *)
Inductive value : Type :=
| VNull
| VBool (b : bool)
| VNum (q : Qc)
| VStr (s : string)
| VArr (xs : list value)
| VObj (ps : list (string * value))
| VBuf (bs : list byte)
| VDate (iso : string).

(** Structural induction that reaches below arrays and objects. *)
Section ValueInd.
Variable P : value -> Prop.
Hypothesis Hnull : P VNull.
Hypothesis Hbool : forall b, P (VBool b).
Hypothesis Hnum : forall q, P (VNum q).
Hypothesis Hstr : forall s, P (VStr s).
Hypothesis Harr : forall xs, Forall P xs -> P (VArr xs).
Hypothesis Hobj : forall ps, Forall (fun p => P (snd p)) ps -> P (VObj ps).
Hypothesis Hbuf : forall bs, P (VBuf bs).
Hypothesis Hdate : forall iso, P (VDate iso).

Fixpoint value_deep_ind (v : value) : P v :=
  match v with
  | VNull => Hnull
  | VBool b => Hbool b
  | VNum q => Hnum q
  | VStr s => Hstr s
  | VArr xs =>
      Harr xs ((fix below (l : list value) : Forall P l :=
                  match l with
                  | [] => List.Forall_nil P
                  | x :: l' => List.Forall_cons P x l' (value_deep_ind x) (below l')
                  end) xs)
  | VObj ps =>
      Hobj ps ((fix below (l : list (string * value)) : Forall (fun p => P (snd p)) l :=
                  match l with
                  | [] => List.Forall_nil _
                  | p :: l' => List.Forall_cons _ p l' (value_deep_ind (snd p)) (below l')
                  end) ps)
  | VBuf bs => Hbuf bs
  | VDate iso => Hdate iso
  end.
End ValueInd.

Section JsonInd.
Variable P : json -> Prop.
Hypothesis Hnull : P JNull.
Hypothesis Hbool : forall b, P (JBool b).
Hypothesis Hnum : forall q, P (JNum q).
Hypothesis Hstr : forall s, P (JStr s).
Hypothesis Harr : forall xs, Forall P xs -> P (JArr xs).
Hypothesis Hobj : forall ps, Forall (fun p => P (snd p)) ps -> P (JObj ps).

Fixpoint json_deep_ind (j : json) : P j :=
  match j with
  | JNull => Hnull
  | JBool b => Hbool b
  | JNum q => Hnum q
  | JStr s => Hstr s
  | JArr xs =>
      Harr xs ((fix below (l : list json) : Forall P l :=
                  match l with
                  | [] => List.Forall_nil P
                  | x :: l' => List.Forall_cons P x l' (json_deep_ind x) (below l')
                  end) xs)
  | JObj ps =>
      Hobj ps ((fix below (l : list (string * json)) : Forall (fun p => P (snd p)) l :=
                  match l with
                  | [] => List.Forall_nil _
                  | p :: l' => List.Forall_cons _ p l' (json_deep_ind (snd p)) (below l')
                  end) ps)
  end.
End JsonInd.

(** ** Bytes and numbers *)

Definition Z_of_byte (b : byte) : Z := Z.of_N (Byte.to_N b).

(** [ToUint8] of an integer: reduction modulo 256. *)
Definition byte_of_Z (z : Z) : byte :=
  match Byte.of_N (Z.to_N (z mod 256)) with
  | Some b => b
  | None => x00
  end.

Definition num_of_byte (b : byte) : Qc := Q2Qc (inject_Z (Z_of_byte b)).

(** [ToUint8] of a finite number: truncate towards zero, then modulo 256. *)
Definition ToUint8 (q : Qc) : byte :=
  byte_of_Z (Z.quot (Qnum (this q)) (Zpos (Qden (this q)))).

(** ** Property access on revived values *)

(** [v[k]] on a plain object: the first binding of [k]. *)
Fixpoint obj_get {A : Type} (k : string) (ps : list (string * A)) : option A :=
  match ps with
  | [] => None
  | (k', x) :: ps' => if String.eqb k k' then Some x else obj_get k ps'
  end.

(** [typeof v === 'object'] ([null] included, as in JavaScript). *)
Definition typeof_object (v : value) : bool :=
  match v with
  | VNull | VArr _ | VObj _ | VBuf _ | VDate _ => true
  | VBool _ | VNum _ | VStr _ => false
  end.

Definition is_null (v : value) : bool :=
  match v with VNull => true | _ => false end.

(** [k in v], used at the keys ['type'] and ['data']: a plain object has
    the key when it is one of its own; arrays, buffers and dates have
    neither key, own or inherited. *)
Definition has_property (k : string) (v : value) : bool :=
  match v with
  | VObj ps => match obj_get k ps with Some _ => true | None => false end
  | _ => false
  end.

(** [v[k]]; [None] is [undefined]. *)
Definition get_property (k : string) (v : value) : option value :=
  match v with
  | VObj ps => obj_get k ps
  | _ => None
  end.

Definition strict_eq_string (o : option value) (s : string) : bool :=
  match o with
  | Some (VStr t) => String.eqb t s
  | _ => false
  end.

Definition Array_isArray (o : option value) : bool :=
  match o with
  | Some (VArr _) => true
  | _ => false
  end.

(** The property names every plain object inherits from
    [Object.prototype]: for these, [object[name]] is defined on an empty
    object used as a dictionary. *)
Definition Object_prototype_keys : list string :=
  ["constructor"; "__defineGetter__"; "__defineSetter__"; "hasOwnProperty";
   "__lookupGetter__"; "__lookupSetter__"; "isPrototypeOf";
   "propertyIsEnumerable"; "toString"; "valueOf"; "__proto__";
   "toLocaleString"].

Definition inherited (name : string) : bool :=
  bool_decide (name ∈ Object_prototype_keys).

(** ** JSON.stringify and JSON.parse, as maps between values and documents *)

(** [JSON.stringify]: a [Buffer] serialises through its [toJSON] as
    [{type: 'Buffer', data: [...bytes]}], a [Date] as its ISO string. *)
Fixpoint JSON_stringify (v : value) : json :=
  match v with
  | VNull => JNull
  | VBool b => JBool b
  | VNum q => JNum q
  | VStr s => JStr s
  | VArr xs => JArr (List.map JSON_stringify xs)
  | VObj ps => JObj (List.map (fun p => (fst p, JSON_stringify (snd p))) ps)
  | VBuf bs =>
      JObj [("type", JStr "Buffer");
            ("data", JArr (List.map (fun b => JNum (num_of_byte b)) bs))]
  | VDate iso => JStr iso
  end.

(** [JSON.parse] without a reviver. *)
Fixpoint JSON_parse (j : json) : value :=
  match j with
  | JNull => VNull
  | JBool b => VBool b
  | JNum q => VNum q
  | JStr s => VStr s
  | JArr xs => VArr (List.map JSON_parse xs)
  | JObj ps => VObj (List.map (fun p => (fst p, JSON_parse (snd p))) ps)
  end.

(** The property name of an array index. *)
Definition index_key (i : nat) : string :=
  NilEmpty.string_of_uint (Nat.to_uint i).

(** Reviving the elements of an array, in index order; [walk] is the
    recursive call on a child.  [None] stands for an exception thrown by
    the reviver. *)
Fixpoint revive_elements (walk : string -> json -> option value)
    (i : nat) (l : list json) : option (list value) :=
  match l with
  | [] => Some []
  | x :: l' =>
      match walk (index_key i) x with
      | None => None
      | Some v =>
          match revive_elements walk (S i) l' with
          | None => None
          | Some vs => Some (v :: vs)
          end
      end
  end.

(** Reviving the members of an object, in key order. *)
Fixpoint revive_members (walk : string -> json -> option value)
    (l : list (string * json)) : option (list (string * value)) :=
  match l with
  | [] => Some []
  | p :: l' =>
      match walk (fst p) (snd p) with
      | None => None
      | Some v =>
          match revive_members walk l' with
          | None => None
          | Some vs => Some ((fst p, v) :: vs)
          end
      end
  end.

(** [JSON.parse(text, reviver)]: the children of a node are revived first,
    then the node itself is passed to the reviver under the name it has in
    its holder. *)
Fixpoint internalize (reviver : string -> value -> option value)
    (name : string) (j : json) : option value :=
  match j with
  | JNull => reviver name VNull
  | JBool b => reviver name (VBool b)
  | JNum q => reviver name (VNum q)
  | JStr s => reviver name (VStr s)
  | JArr xs =>
      match revive_elements (internalize reviver) 0%nat xs with
      | None => None
      | Some vs => reviver name (VArr vs)
      end
  | JObj ps =>
      match revive_members (internalize reviver) ps with
      | None => None
      | Some vs => reviver name (VObj vs)
      end
  end.

(** The root value is held under the empty name. *)
Definition JSON_parse_with (reviver : string -> value -> option value)
    (j : json) : option value :=
  internalize reviver "" j.

(** The test of the reviver of lib/utils.js, conjunct by conjunct. *)
Definition is_serialised_buffer (v : value) : bool :=
  negb (is_null v)
  && typeof_object v
  && has_property "type" v
  && strict_eq_string (get_property "type" v) "Buffer"
  && has_property "data" v
  && Array_isArray (get_property "data" v).

Section BufferSupport.

(** [Buffer.from(array)] stores [ToUint8(ToNumber(x))] for every element
    [x].  For numbers, [null] and booleans the conversion is written out;
    for strings and objects [ToNumber] goes through Node's string and
    [ToPrimitive] conversions, which are taken as a parameter:
    [coerce x] is the byte stored, [None] when the conversion throws. *)
Variable coerce : value -> option byte.

Definition element_byte (x : value) : option byte :=
  match x with
  | VNum q => Some (ToUint8 q)
  | VNull => Some x00
  | VBool b => Some (if b then x01 else x00)
  | _ => coerce x
  end.

Fixpoint Buffer_from_array (xs : list value) : option (list byte) :=
  match xs with
  | [] => Some []
  | x :: xs' =>
      match element_byte x with
      | None => None
      | Some b =>
          match Buffer_from_array xs' with
          | None => None
          | Some bs => Some (b :: bs)
          end
      end
  end.

(** The reviver of lib/utils.js. *)
Definition bufferReviver (k : string) (v : value) : option value :=
  if is_serialised_buffer v then
    match get_property "data" v with
    | Some (VArr xs) =>
        match Buffer_from_array xs with
        | Some bs => Some (VBuf bs)
        | None => None
        end
    | _ => Some v
    end
  else Some v.

(** [utils.jsonParseWithBufferSupport]. *)
Definition jsonParseWithBufferSupport (str : json) : option value :=
  JSON_parse_with bufferReviver str.

End BufferSupport.

(** ** Vocabulary of the round-trip statements *)

(** What a value looks like once its dates have gone through JSON: a
    [Date] comes back as its ISO string, everything else as itself. *)
Fixpoint settle (v : value) : value :=
  match v with
  | VArr xs => VArr (List.map settle xs)
  | VObj ps => VObj (List.map (fun p => (fst p, settle (snd p))) ps)
  | VDate iso => VStr iso
  | _ => v
  end.

(** No plain object of the value has, once serialised, the shape the
    reviver takes for a serialised [Buffer]. *)
Fixpoint lookalike_free (v : value) : bool :=
  match v with
  | VArr xs => forallb lookalike_free xs
  | VObj ps =>
      negb (is_serialised_buffer (settle (VObj ps)))
      && forallb (fun p => lookalike_free (snd p)) ps
  | _ => true
  end.

(** No object of the document has the shape of a serialised [Buffer]. *)
Fixpoint buffer_free (j : json) : bool :=
  match j with
  | JArr xs => forallb buffer_free xs
  | JObj ps =>
      negb (is_serialised_buffer (JSON_parse (JObj ps)))
      && forallb (fun p => buffer_free (snd p)) ps
  | _ => true
  end.

Fixpoint date_free (v : value) : bool :=
  match v with
  | VArr xs => forallb date_free xs
  | VObj ps => forallb (fun p => date_free (snd p)) ps
  | VDate _ => false
  | _ => true
  end.

(** The contents of the buffers of a value, in document order. *)
Fixpoint buffers_of (v : value) : list (list byte) :=
  match v with
  | VBuf bs => [bs]
  | VArr xs => flat_map buffers_of xs
  | VObj ps => flat_map (fun p => buffers_of (snd p)) ps
  | _ => []
  end.

(** The round trip reconstitutes every buffer of [v]. *)
Definition reconstitutes_every_buffer (coerce : value -> option byte)
    (v : value) : Prop :=
  exists r, jsonParseWithBufferSupport coerce (JSON_stringify v) = Some r
            /\ incl (buffers_of v) (buffers_of r).

(** A conversion for which every string or object element is [NaN], hence
    stored as the byte 0. *)
Definition coerce_nan (x : value) : option byte := Some x00.

(** The bytes of an ASCII string, [Buffer.from(s)]. *)
Definition Buffer_from_string (s : string) : list byte :=
  list_byte_of_string s.

(** The object of test/lib/utils.js. *)
Definition test_obj : value :=
  VObj [("buffer", VBuf (Buffer_from_string "Hello, world!"))].

(** A plain object that has the shape of a serialised buffer and holds a
    real buffer next to it:
    [{type: 'Buffer', data: [], payload: Buffer.from([1])}]. *)
Definition lookalike_obj : value :=
  VObj [("type", VStr "Buffer"); ("data", VArr []); ("payload", VBuf [x01])].

(** No plain object of the value passes the test of the reviver. *)
Fixpoint no_serialised_buffer (v : value) : bool :=
  match v with
  | VArr xs => forallb no_serialised_buffer xs
  | VObj ps =>
      negb (is_serialised_buffer (VObj ps))
      && forallb (fun p => no_serialised_buffer (snd p)) ps
  | _ => true
  end.


End Json.

(* ===================================================================== *)
(** * Cryptographic primitives (lib/crypto.js) *)
(* ===================================================================== *)

Module Crypto.
Import Json.

Definition bytes : Type := list byte.

(** A computation that returns a value or throws. *)
Inductive result (A : Type) : Type :=
| Ok (a : A)
| Throw (error : string).
Arguments Ok {A} a.
Arguments Throw {A} error.

Definition bind {A B : Type} (c : result A) (k : A -> result B) : result B :=
  match c with
  | Ok a => k a
  | Throw e => Throw e
  end.

Notation "'let*' x ':=' c 'in' k" := (bind c (fun x => k))
  (at level 10, x pattern, c at level 100, k at level 200).

(** ** Node buffers *)

(** [Buffer.alloc(size)]: zero-filled; a negative size is a [RangeError]. *)
Definition Buffer_alloc (size : Z) : result bytes :=
  if (size <? 0)%Z then Throw "RangeError"
  else Ok (repeat x00 (Z.to_nat size)).

Definition hex_digit (a : ascii) : option N :=
  let n := N_of_ascii a in
  if ((48 <=? n) && (n <=? 57))%N then Some (n - 48)%N
  else if ((97 <=? n) && (n <=? 102))%N then Some (n - 87)%N
  else if ((65 <=? n) && (n <=? 70))%N then Some (n - 55)%N
  else None.

(** [Buffer.from(s, 'hex')]: two digits a byte, stopping at the first pair
    that is not hexadecimal; a trailing single digit is dropped. *)
Fixpoint Buffer_from_hex (s : string) : bytes :=
  match s with
  | String a (String b rest) =>
      match hex_digit a, hex_digit b with
      | Some h, Some l =>
          match Byte.of_N (16 * h + l) with
          | Some x => x :: Buffer_from_hex rest
          | None => []
          end
      | _, _ => []
      end
  | _ => []
  end.



(** The part of Node that lib/crypto.js relies on and that is not written
    out here: the UTF-8 codec of [Buffer] and the text [JSON.stringify]
    prints for a document.  [well_formed s]: the string has no lone
    surrogate, so that its UTF-8 encoding decodes to itself. *)
Class Node : Type := {
  Buffer_from_utf8 : string -> bytes;
  Buffer_toString_utf8 : bytes -> string;
  well_formed : string -> Prop;
  JSON_text : json -> string
}.

Class NodeContract (N : Node) : Prop := {
  utf8_roundtrip :
    forall s, well_formed s -> Buffer_toString_utf8 (Buffer_from_utf8 s) = s
}.

(** ** sodium-universal *)

(** The secretbox construction, as pure functions on byte strings:
    [secretbox message nonce key] is the authenticated ciphertext,
    [secretbox_open ciphertext nonce key] the message, or [None] when
    authentication fails. *)
Class Sodium : Type := {
  crypto_secretbox_MACBYTES : nat;
  crypto_secretbox_NONCEBYTES : nat;
  crypto_secretbox_KEYBYTES : nat;
  secretbox : bytes -> bytes -> bytes -> bytes;
  secretbox_open : bytes -> bytes -> bytes -> option bytes
}.

Class SodiumContract (S : Sodium) : Prop := {
  secretbox_length :
    forall m n k, length (secretbox m n k) = length m + crypto_secretbox_MACBYTES;
  secretbox_open_secretbox :
    forall m n k,
      length n = crypto_secretbox_NONCEBYTES ->
      length k = crypto_secretbox_KEYBYTES ->
      secretbox_open (secretbox m n k) n k = Some m;
  secretbox_open_length :
    forall c n k m,
      secretbox_open c n k = Some m ->
      length c = length m + crypto_secretbox_MACBYTES
}.

Section Primitives.
Context {N : Node} {S : Sodium}.

(** [sodium.randombytes_buf(buffer)]: fills the buffer from the entropy
    source, here a stream of bytes. *)
Definition randombytes_buf (entropy : nat -> byte) (buffer : bytes) : bytes :=
  List.map entropy (seq 0 (length buffer)).

(** [sodium.crypto_secretbox_easy(ciphertext, message, nonce, key)] writes
    the ciphertext into the buffer passed first; it throws on buffers of
    the wrong size. *)
Definition crypto_secretbox_easy (ciphertext message nonce key : bytes)
  : result bytes :=
  if (length ciphertext =? length message + crypto_secretbox_MACBYTES)%nat
     && (length nonce =? crypto_secretbox_NONCEBYTES)%nat
     && (length key =? crypto_secretbox_KEYBYTES)%nat
  then Ok (secretbox message nonce key)
  else Throw "sodium: bad argument".

(** [sodium.crypto_secretbox_open_easy(plaintext, ciphertext, nonce, key)]
    returns whether the ciphertext is authentic; the plaintext buffer is
    written only when it is. *)
Definition crypto_secretbox_open_easy (plaintext ciphertext nonce key : bytes)
  : result (bool * bytes) :=
  if (length plaintext + crypto_secretbox_MACBYTES =? length ciphertext)%nat
     && (length nonce =? crypto_secretbox_NONCEBYTES)%nat
     && (length key =? crypto_secretbox_KEYBYTES)%nat
  then match secretbox_open ciphertext nonce key with
       | Some m => Ok (true, m)
       | None => Ok (false, plaintext)
       end
  else Throw "sodium: bad argument".

(** ** encrypt and decrypt *)

(** The message argument: a string, or a value [JSON.stringify]
    serialises (for [undefined] or a function, [JSON.stringify] returns
    [undefined] and [Buffer.from] throws). *)
Inductive message : Type :=
| MString (s : string)
| MOther (v : value).

(** The key argument: a buffer or a hex string. *)
Inductive secret_key : Type :=
| KBuffer (b : bytes)
| KHex (s : string).

Record box : Type := { nonce : bytes; ciphertext : bytes }.

(** [if (typeof message !== 'string') message = JSON.stringify(message)] *)
Definition message_string (m : message) : string :=
  match m with
  | MString s => s
  | MOther v => JSON_text (JSON_stringify v)
  end.

(** [if (typeof secretKey === 'string') secretKey = Buffer.from(secretKey, 'hex')] *)
Definition key_buffer (k : secret_key) : bytes :=
  match k with
  | KHex s => Buffer_from_hex s
  | KBuffer b => b
  end.

Definition encrypt (entropy : nat -> byte) (m : message) (secretKey : secret_key)
  : result box :=
  let m := message_string m in
  let secretKey := key_buffer secretKey in
  let m := Buffer_from_utf8 m in
  let* ciphertext :=
    Buffer_alloc (Z.of_nat (length m + crypto_secretbox_MACBYTES)) in
  let* nonce := Buffer_alloc (Z.of_nat crypto_secretbox_NONCEBYTES) in
  let nonce := randombytes_buf entropy nonce in
  let* ciphertext := crypto_secretbox_easy ciphertext m nonce secretKey in
  Ok {| nonce := nonce; ciphertext := ciphertext |}.

Definition decrypt (ciphertext : bytes) (secretKey : secret_key) (nonce : bytes)
  : result string :=
  if negb (length nonce =? crypto_secretbox_NONCEBYTES)%nat
  then Throw "Incorrect nonce length."
  else
    let secretKey := key_buffer secretKey in
    let* plaintext :=
      Buffer_alloc (Z.of_nat (length ciphertext)
                    - Z.of_nat crypto_secretbox_MACBYTES) in
    let* opened := crypto_secretbox_open_easy plaintext ciphertext nonce secretKey in
    let plaintextInUtf8 := Buffer_toString_utf8 (snd opened) in
    Ok plaintextInUtf8.

End Primitives.

(** ** An instance of the interfaces, to run the definitions on *)

(** ASCII text: a string is its own UTF-8 encoding. *)
Definition ascii_node : Node := {|
  Buffer_from_utf8 := list_byte_of_string;
  Buffer_toString_utf8 := string_of_list_byte;
  well_formed := fun _ => True;
  JSON_text := fun _ => "{}"
|}.

Definition tag_of (key : bytes) : bytes := firstn 16 (key ++ repeat x00 16).

(** A keyed tag in front of the message: the sizes and the authentication
    of secretbox, without its confidentiality. *)
Definition tagged_sodium : Sodium := {|
  crypto_secretbox_MACBYTES := 16;
  crypto_secretbox_NONCEBYTES := 24;
  crypto_secretbox_KEYBYTES := 32;
  secretbox := fun m n k => tag_of k ++ m;
  secretbox_open := fun c n k =>
    if decide (16 <= length c /\ firstn 16 c = tag_of k)
    then Some (skipn 16 c) else None
|}.

(** The key and the message of test/lib/crypto.js. *)
Definition test_secretKey : string :=
  "2b32b9c560b52392a1b59bdc218234a2ff66c6d3f460bb5004aac00f251e9222".

Definition test_message : string := "Hello, world!".

Definition test_entropy (i : nat) : byte := byte_of_Z (Z.of_nat (7 * i + 3)).

(** A ciphertext of one byte behind a tag of zeros, and a nonce of zeros. *)
Definition forged_ciphertext : bytes := repeat x00 16 ++ [x41].

Definition zero_nonce : bytes := repeat x00 24.

End Crypto.

(* ===================================================================== *)
(** * The browser node (browser/index.js) *)
(* ===================================================================== *)

Module Browser.
Import Json.

Section Node.

(** The text [JSON.stringify] prints for a document, and
    [crypto.createHash('sha256').update(text).digest('hex')]. *)
Variable JSON_text : json -> string.
Variable sha256_hex : string -> string.

Definition createMessageHash (message : value) : string :=
  sha256_hex (JSON_text (JSON_stringify message)).

(** The part of the view that the handlers write: the authorisation
    request panel and the node name it displays ([None]: [undefined]). *)
Record View : Type := {
  authorisationRequest_hidden : bool;
  authorisationRequestNodeName : option value
}.

(** [ephemeralMessageHashes], [model.lastRequest] ([None]: [undefined])
    and the view. *)
Record State : Type := {
  ephemeralMessageHashes : gmap string bool;
  lastRequest : option value;
  view : View
}.

Definition initial : State := {|
  ephemeralMessageHashes := ∅;
  lastRequest := None;
  view := {| authorisationRequest_hidden := true;
             authorisationRequestNodeName := None |}
|}.

(** [ephemeralMessageHashes[messageHash] !== undefined]: the object has the
    key, or inherits it.  (A SHA-256 digest in hex is never an inherited
    name; the test is written out for any digest function.) *)
Definition seen (st : State) (messageHash : string) : bool :=
  match ephemeralMessageHashes st !! messageHash with
  | Some _ => true
  | None => inherited messageHash
  end.

(** [ephemeralMessageHashes[messageHash] = true]; assigning a boolean to
    [__proto__] leaves an object as it is. *)
Definition mark_seen (st : State) (messageHash : string) : State :=
  if String.eqb messageHash "__proto__" then st
  else {|
    ephemeralMessageHashes := <[messageHash := true]> (ephemeralMessageHashes st);
    lastRequest := lastRequest st;
    view := view st
  |}.

(** What the ['message'] handler does with a message, up to the point
    where it returns. *)
Inductive reaction : Type :=
| AlreadySeen                (* 'Message already seen, ignoring.' *)
| CheckingAuthorisation      (* db.authorized(db.local.key, callback) *)
| UnknownRequest             (* 'Unknown request.' *)
| TypeError.                 (* request.action read on null *)

(** [request.action === 'authorise']; reading a property of [null] throws,
    reading one of any other value that is not a plain object gives
    [undefined]. *)
Definition dispatch (request : value) : reaction :=
  match request with
  | VNull => TypeError
  | _ =>
      if strict_eq_string (get_property "action" request) "authorise"
      then CheckingAuthorisation
      else UnknownRequest
  end.

(** The handler of [secureEphemeralMessagingChannel.on('message', ...)]. *)
Definition onMessage (st : State) (message : value) : State * reaction :=
  let request := message in
  let messageHash := createMessageHash message in
  if seen st messageHash then (st, AlreadySeen)
  else
    let st := mark_seen st messageHash in
    (st, dispatch request).

(** The answer of [db.authorized(key, callback)]. *)
Inductive authorized : Type :=
| AuthorizedError
| Authorized (isAuthorised : bool).

(** [view.showAuthorisationRequest(nodeName)] *)
Definition showAuthorisationRequest (nodeName : option value) : View := {|
  authorisationRequest_hidden := false;
  authorisationRequestNodeName := nodeName
|}.

(** The callback passed to [db.authorized], a closure over the request. *)
Definition authorizedCallback (request : value) (answer : authorized)
    (st : State) : State :=
  match answer with
  | AuthorizedError => st
  | Authorized true => {|
      ephemeralMessageHashes := ephemeralMessageHashes st;
      lastRequest := Some request;
      view := showAuthorisationRequest (get_property "nodeName" request)
    |}
  | Authorized false => st
  end.

(** What a handler does to the outside. *)
Inductive effect : Type :=
| DbAuthorized                           (* db.authorized(db.local.key, ...) *)
| Broadcast (message : value)            (* channel.broadcast(model.db, message) *)
| DbAuthorize (readKey : option value)   (* model.db.authorize(Buffer.from(readKey, 'hex'), ...) *)
| Thrown                                 (* an uncaught TypeError *)
| ConsoleLog (line : string).

(** The message of [view.on('requestAuthorisation', ...)]; the timestamp is
    a [Date]. *)
Definition authorisationRequest (nodeName timestamp localKey : string) : value :=
  VObj [("nodeName", VStr nodeName);
        ("timestamp", VDate timestamp);
        ("action", VStr "authorise");
        ("readKey", VStr localKey)].

(** The handler of [view.on('requestAuthorisation', ...)]. *)
Definition onRequestAuthorisation (st : State) (message : value)
  : State * list effect :=
  let messageHash := createMessageHash message in
  (mark_seen st messageHash, [Broadcast message]).

(** The handler of [view.on('authorise', ...)]: it throws when there is no
    last request, and asks the database to authorise the key of the last
    request otherwise.  The effect carries the [readKey] property as the
    request has it; [Buffer.from(readKey, 'hex')], which throws on some
    values that are not strings, is left to the database. *)
Definition onAuthorise (st : State) : list effect :=
  match lastRequest st with
  | None => [Thrown]
  | Some request => [DbAuthorize (get_property "readKey" request)]
  end.

(** The handler of ['received-bad-message']: a line on the console. *)
Definition onReceivedBadMessage : list effect :=
  [ConsoleLog "!!! Emphemeral message: received bad message !!!"].

(** ** The node as a machine *)

(** The node together with the calls to [db.authorized] whose callback has
    not run yet. *)
Record Node : Type := {
  app : State;
  pending : list value
}.

Definition boot : Node := {| app := initial; pending := [] |}.

Inductive event : Type :=
| Message (message : value)
| ReceivedBadMessage
| AuthorizedAnswers (i : nat) (answer : authorized)
| RequestAuthorisation (nodeName timestamp localKey : string)
| Authorise.

Definition step (n : Node) (e : event) : Node * list effect :=
  match e with
  | Message message =>
      let '(st, r) := onMessage (app n) message in
      match r with
      | CheckingAuthorisation =>
          ({| app := st; pending := pending n ++ [message] |}, [DbAuthorized])
      | TypeError => ({| app := st; pending := pending n |}, [Thrown])
      | AlreadySeen | UnknownRequest =>
          ({| app := st; pending := pending n |}, [])
      end
  | ReceivedBadMessage => (n, onReceivedBadMessage)
  | AuthorizedAnswers i answer =>
      match pending n !! i with
      | Some request =>
          ({| app := authorizedCallback request answer (app n);
              pending := delete i (pending n) |}, [])
      | None => (n, [])
      end
  | RequestAuthorisation nodeName timestamp localKey =>
      let '(st, effects) :=
        onRequestAuthorisation (app n)
          (authorisationRequest nodeName timestamp localKey) in
      ({| app := st; pending := pending n |}, effects)
  | Authorise => (n, onAuthorise (app n))
  end.

Fixpoint run (n : Node) (events : list event) : Node * list effect :=
  match events with
  | [] => (n, [])
  | e :: events' =>
      let '(n1, effects1) := step n e in
      let '(n2, effects2) := run n1 events' in
      (n2, effects1 ++ effects2)
  end.

(** ** Vocabulary of the statements *)

(** The reactions that act on the message. *)
Definition acted (r : reaction) : bool :=
  match r with
  | AlreadySeen => false
  | _ => true
  end.

(** How many times, along a run, the handler acted on a message of content
    hash [h]. *)
Fixpoint handlings (h : string) (n : Node) (events : list event) : nat :=
  match events with
  | [] => 0
  | e :: events' =>
      (match e with
       | Message message =>
           if String.eqb (createMessageHash message) h
              && acted (snd (onMessage (app n) message))
           then 1 else 0
       | _ => 0
       end) + handlings h (fst (step n e)) events'
  end.


(** The events that write the hash [h] into the seen-set. *)
Definition touches (h : string) (e : event) : bool :=
  match e with
  | Message message => String.eqb (createMessageHash message) h
  | RequestAuthorisation nodeName timestamp localKey =>
      String.eqb
        (createMessageHash (authorisationRequest nodeName timestamp localKey)) h
  | _ => false
  end.

(** The requests for which [db.authorized] answered [true] along a run. *)
Fixpoint approved (n : Node) (events : list event) : list value :=
  match events with
  | [] => []
  | e :: events' =>
      (match e with
       | AuthorizedAnswers i (Authorized true) =>
           match pending n !! i with
           | Some request => [request]
           | None => []
           end
       | _ => []
       end) ++ approved (fst (step n e)) events'
  end.

(** [isAuthorised === true], with no error. *)
Definition is_authorised (answer : authorized) : bool :=
  match answer with
  | Authorized true => true
  | _ => false
  end.

(** The state in which a request is put before the person at the node. *)
Definition surfaced (request : value) (st : State) : State := {|
  ephemeralMessageHashes := ephemeralMessageHashes st;
  lastRequest := Some request;
  view := showAuthorisationRequest (get_property "nodeName" request)
|}.

(** The requests received along a run. *)
Fixpoint received (events : list event) : list value :=
  match events with
  | [] => []
  | Message message :: events' => message :: received events'
  | _ :: events' => received events'
  end.

End Node.

(** ** Stand-ins to run the machine on *)

Definition quote_mark : string := String (Ascii.ascii_of_nat 34) EmptyString.

Definition quoted (s : string) : string := quote_mark +:+ s +:+ quote_mark.

(** A printer that is exact on documents made of objects, arrays, strings
    without special characters, booleans and [null]; every number prints
    as [0]. *)
Fixpoint print_json (j : json) : string :=
  match j with
  | JNull => "null"
  | JBool b => if b then "true" else "false"
  | JNum _ => "0"
  | JStr s => quoted s
  | JArr xs =>
      "[" +:+ String.concat "," (List.map print_json xs) +:+ "]"
  | JObj ps =>
      "{" +:+ String.concat ","
                (List.map (fun p => quoted (fst p) +:+ ":" +:+ print_json (snd p)) ps)
          +:+ "}"
  end.

(** A digest without collisions: the text itself. *)
Definition plain_digest (text : string) : string := text.

(** A request as another node sends it, and as it arrives. *)
Definition sample_request : value :=
  authorisationRequest "Firefox on Linux" "2019-02-01T10:00:00.000Z" "c4a99bc9".

Definition sample_received : value :=
  JSON_parse (JSON_stringify sample_request).

(** The request arrives, the local writer is found authorised, the person
    at the node presses the button. *)
Definition sample_run : list event :=
  [Message sample_received; AuthorizedAnswers 0 (Authorized true); Authorise].

(** [getReadKeyFromDatDNS]; [requestPromise url] is the body of the
    response, [None] is [null]. *)
Definition getReadKeyFromDatDNS (requestPromise : string -> string)
  : option string :=
  let response := requestPromise "https://localhost:443/.well-known/dat" in
  if String.eqb response "" then None else Some response.

End Browser.

(* ===================================================================== *)
(** * The ephemeral channel (specification, section 4.5) *)
(* ===================================================================== *)

Module Channel.
Import Json.

Definition bytes : Type := list byte.

(** Modelled from the spec: a replication session, which the repository
    gets from hyperdb's [replicate] and does not define: the database it
    is bound to, the peer at its other end, and whether it is live. *)
Record session : Type := {
  database : string;
  peer : nat;
  live : bool
}.

(** Modelled from the spec: the state of the ephemeral channel, a class of
    the package [@hypha/secure-ephemeral-messaging-channel]: its symmetric
    key ([None] on a relay, which is constructed without one), its seen-set
    of content hashes, and the sessions it is multiplexed on. *)
Record channel : Type := {
  secretKey : option bytes;
  seenSet : gset string;
  sessions : list session
}.

(** [new SecureEphemeralMessagingChannel(secretKey)] *)
Definition create (key : option bytes) : channel := {|
  secretKey := key;
  seenSet := ∅;
  sessions := []
|}.

(** What the channel makes observable: the events it fires (the two the
    browser node listens to) and the frames it writes to sessions. *)
Inductive action : Type :=
| EmitMessage (database : string) (peer : nat) (message : value)
| EmitBadMessage (database : string) (peer : nat)
| Send (peer : nat) (frame : bytes).

Definition is_emit (a : action) : bool :=
  match a with
  | EmitMessage _ _ _ | EmitBadMessage _ _ => true
  | Send _ _ => false
  end.

(** The messages handed to the application. *)
Fixpoint delivered (actions : list action) : list value :=
  match actions with
  | [] => []
  | EmitMessage _ _ message :: actions' => message :: delivered actions'
  | _ :: actions' => delivered actions'
  end.

(** The peers of the other live sessions for a database. *)
Definition other_live_peers (ch : channel) (db : string) (from : nat) : list nat :=
  List.map peer
    (List.filter
       (fun s => String.eqb (database s) db && live s && negb (Nat.eqb (peer s) from))
       (sessions ch)).

Definition open_session (ch : channel) (s : session) : channel := {|
  secretKey := secretKey ch;
  seenSet := seenSet ch;
  sessions := sessions ch ++ [s]
|}.

Definition close_session (ch : channel) (db : string) (p : nat) : channel := {|
  secretKey := secretKey ch;
  seenSet := seenSet ch;
  sessions :=
    List.filter
      (fun s => negb (String.eqb (database s) db && Nat.eqb (peer s) p))
      (sessions ch)
|}.

Section Receive.

(** Decryption and deserialisation of a frame under a key ([None]:
    authentication fails), and the content hash of a message. *)
Variable open : bytes -> bytes -> option value.
Variable contentHash : value -> string.

(** Modelled from the spec: the receive operation of the ephemeral channel,
    which lives in the package [@hypha/secure-ephemeral-messaging-channel]
    and not in this repository.  Section 4.5: a node without the symmetric
    key only re-broadcasts the raw ciphertext frame it receives on one
    session to all other live sessions for the same database, with no
    deduplication and no decryption attempt; a node with the key decrypts,
    fails with [BadMessage] (an observable event, nothing thrown) on
    authentication failure, and on success computes the content hash,
    drops the message silently when the hash is in the seen-set, and
    otherwise updates the seen-set and fires a [message] event. *)
Definition onReceive (ch : channel) (db : string) (from : nat) (ciphertext : bytes)
  : channel * list action :=
  match secretKey ch with
  | None =>
      (ch, List.map (fun p => Send p ciphertext) (other_live_peers ch db from))
  | Some key =>
      match open key ciphertext with
      | None => (ch, [EmitBadMessage db from])
      | Some message =>
          let h := contentHash message in
          if decide (h ∈ seenSet ch) then (ch, [])
          else ({| secretKey := secretKey ch;
                   seenSet := {[h]} ∪ seenSet ch;
                   sessions := sessions ch |},
                [EmitMessage db from message])
      end
  end.

(** What happens to a channel. *)
Inductive event : Type :=
| Opened (s : session)
| Closed (db : string) (p : nat)
| Received (db : string) (from : nat) (ciphertext : bytes).

Definition step (ch : channel) (e : event) : channel * list action :=
  match e with
  | Opened s => (open_session ch s, [])
  | Closed db p => (close_session ch db p, [])
  | Received db from ciphertext => onReceive ch db from ciphertext
  end.

Fixpoint run (ch : channel) (events : list event) : channel * list action :=
  match events with
  | [] => (ch, [])
  | e :: events' =>
      let '(ch1, actions1) := step ch e in
      let '(ch2, actions2) := run ch1 events' in
      (ch2, actions1 ++ actions2)
  end.

End Receive.

(** The frames a pure relay passes on along a run: each received frame,
    unchanged, to the other live sessions for its database. *)
Fixpoint forwarded (sessions : list session) (events : list event) : list action :=
  match events with
  | [] => []
  | Opened s :: events' => forwarded (sessions ++ [s]) events'
  | Closed db p :: events' =>
      forwarded
        (List.filter
           (fun s => negb (String.eqb (database s) db && Nat.eqb (peer s) p))
           sessions)
        events'
  | Received db from ciphertext :: events' =>
      List.map (fun p => Send p ciphertext)
        (List.map peer
           (List.filter
              (fun s => String.eqb (database s) db && live s
                        && negb (Nat.eqb (peer s) from))
              sessions))
      ++ forwarded sessions events'
  end.

(** ** Stand-ins to run the channel on *)

(** A frame opens under a key when it starts with the key; the rest is the
    message, a string. *)
Definition prefix_open (key ciphertext : bytes) : option value :=
  if decide (firstn (length key) ciphertext = key)
  then Some (VStr (string_of_list_byte (skipn (length key) ciphertext)))
  else None.

Definition string_hash (message : value) : string :=
  match message with
  | VStr s => s
  | _ => ""
  end.

Definition sample_key : bytes := [x6b; x65; x79].

Definition sample_forgery : bytes := [x6b; x65; x7a; x21].

End Channel.

(* ===================================================================== *)
(** * The always-on node (always-on/index.js) *)
(* ===================================================================== *)

Module AlwaysOn.
Import Json.

(** The settings object; [readKey] is whatever the settings file holds. *)
Record Settings : Type := { readKey : value }.

Definition defaultSettings : Settings := {| readKey := VStr "" |}.

(** The channel of the always-on node is constructed without a key. *)
Definition secureEphemeralMessagingChannel : Channel.channel :=
  Channel.create None.

(** The node: the settings in memory, the settings file, and the read keys
    of the databases in [hyperdbs]. *)
Record Server : Type := {
  settings : Settings;
  settingsFile : Settings;
  hyperdbs : gset string
}.

(** Start-up: the settings file is created with the default settings when
    it does not exist, and loaded otherwise. *)
Definition start (file : option Settings) : Server :=
  match file with
  | None => {| settings := defaultSettings;
               settingsFile := defaultSettings;
               hyperdbs := ∅ |}
  | Some loaded => {| settings := loaded;
                      settingsFile := loaded;
                      hyperdbs := ∅ |}
  end.

(** ** The discovery record *)

Inductive http : Type :=
| SetHeader (name content : string)
| End_ (body : string)
| Next
| MiddlewareError.

(** The first middleware: [response.end] takes a string, ends the response
    with an empty body on [null], and throws on other values, which the
    handler catches and logs. *)
Definition middleware (st : Settings) (url : string) : list http :=
  if String.eqb url "/.well-known/dat" then
    SetHeader "Content-Type" "text/plain"
    :: match readKey st with
       | VStr key => [End_ key]
       | VNull => [End_ ""]
       | _ => [MiddlewareError]
       end
  else [Next].

(** The body the node answers a request with, seen from a client of
    [https://localhost:443]; a request the first middleware passes on is
    answered by the static server, whose files are not modelled. *)
Definition respond (st : Settings) (url : string) : string :=
  let origin := "https://localhost:443" in
  let path := String.substring (String.length origin)
                (String.length url - String.length origin) url in
  match middleware st path with
  | [SetHeader _ _; End_ body] => body
  | _ => ""
  end.

(** ** The web socket routes *)

Inductive effect : Type :=
| WsSendError (error : string)       (* websocket.send({error: ...}) *)
| WsClose
| CreateHyperdb (readKey : string)   (* hyperdb('unprivileged.db', readKey, ...) *)
| AddDatabase (readKey : string)     (* channel.addDatabase(db) *)
| OnReady (readKey : string)         (* db.on('ready', ...) *)
| PersistSettings
| ReferenceError (name : string).

(** [replicate(websocket, readKey)]: when [hyperdbs[readKey]] is defined
    (a database it already has, or a name [hyperdbs] inherits), the
    function reads the undeclared name [webSocket] and throws; otherwise
    it creates the database, adds it to the channel and waits for it to be
    ready.  The boolean tells whether the call returned. *)
Definition replicate (st : Server) (key : string) : Server * list effect * bool :=
  if bool_decide (key ∈ hyperdbs st) || inherited key then
    (st, [ReferenceError "webSocket"], false)
  else
    ({| settings := settings st;
        settingsFile := settingsFile st;
        hyperdbs := {[key]} ∪ hyperdbs st |},
     [CreateHyperdb key; AddDatabase key; OnReady key], true).

(** [router.ws('/sign-up/:readKey', ...)] *)
Definition signUp (st : Server) (key : string) : Server * list effect :=
  if negb (is_null (readKey (settings st))) then
    (st, [WsSendError "Hypha already exists."; WsClose])
  else
    let '(st, effects, returned) := replicate st key in
    if returned then
      ({| settings := {| readKey := VStr key |};
          settingsFile := {| readKey := VStr key |};
          hyperdbs := hyperdbs st |},
       effects ++ [PersistSettings])
    else (st, effects).

(** [router.ws('/hypha', ...)]; [replicate] is given the read key of the
    settings, a string on any node that got past the test. *)
Definition hypha (st : Server) : Server * list effect :=
  if is_null (readKey (settings st)) then
    (st, [WsSendError "Hypha does not exist."; WsClose])
  else
    match readKey (settings st) with
    | VStr key => let '(st, effects, _) := replicate st key in (st, effects)
    | _ => (st, [])
    end.

(** [router.ws('/replicate/:readKey', ...)]: the handler names its socket
    [webSocket] and passes the undeclared [websocket]. *)
Definition replicateRoute (st : Server) (key : string) : Server * list effect :=
  (st, [ReferenceError "websocket"]).

Inductive request : Type :=
| SignUp (key : string)
| Hypha
| Replicate (key : string).

Definition serve (st : Server) (r : request) : Server * list effect :=
  match r with
  | SignUp key => signUp st key
  | Hypha => hypha st
  | Replicate key => replicateRoute st key
  end.

Fixpoint serve_all (st : Server) (rs : list request) : Server * list effect :=
  match rs with
  | [] => (st, [])
  | r :: rs' =>
      let '(st1, effects1) := serve st r in
      let '(st2, effects2) := serve_all st1 rs' in
      (st2, effects1 ++ effects2)
  end.

(** A node is provisioned when its settings hold a read key: a string that
    is not empty. *)
Definition provisioned (st : Server) : bool :=
  match readKey (settings st) with
  | VStr key => negb (String.eqb key "")
  | _ => false
  end.

(** Sign-up was refused: the error was sent and the socket closed. *)
Definition refused (effects : list effect) : bool :=
  match effects with
  | [WsSendError _; WsClose] => true
  | _ => false
  end.

(** The read keys of the databases created by a series of effects. *)
Fixpoint created (effects : list effect) : list string :=
  match effects with
  | [] => []
  | CreateHyperdb key :: effects' => key :: created effects'
  | _ :: effects' => created effects'
  end.

End AlwaysOn.

(* ===================================================================== *)
(** * The browser node on its channel *)
(* ===================================================================== *)

Module Wired.
Import Json.

Section Node.

Variable JSON_text : json -> string.
Variable sha256_hex : string -> string.
Variable open : Channel.bytes -> Channel.bytes -> option value.
Variable contentHash : value -> string.

(** The browser node and the channel it created with its key. *)
Record node : Type := {
  channel : Channel.channel;
  browser : Browser.Node
}.

(** The events of the channel reach the handlers registered in
    [createDatabase]; the frames it sends go to the network. *)
Fixpoint handle (b : Browser.Node) (actions : list Channel.action)
  : Browser.Node * list Browser.effect :=
  match actions with
  | [] => (b, [])
  | a :: actions' =>
      let '(b1, effects1) :=
        match a with
        | Channel.EmitMessage _ _ message =>
            Browser.step JSON_text sha256_hex b (Browser.Message message)
        | Channel.EmitBadMessage _ _ =>
            Browser.step JSON_text sha256_hex b Browser.ReceivedBadMessage
        | Channel.Send _ _ => (b, [])
        end in
      let '(b2, effects2) := handle b1 actions' in
      (b2, effects1 ++ effects2)
  end.

(** A frame arrives on a session of the node. *)
Definition receive (n : node) (db : string) (from : nat) (ciphertext : Channel.bytes)
  : node * list Channel.action * list Browser.effect :=
  let '(ch, actions) :=
    Channel.onReceive open contentHash (channel n) db from ciphertext in
  let '(b, effects) := handle (browser n) actions in
  ({| channel := ch; browser := b |}, actions, effects).

End Node.

(** A node that holds the sample key. *)
Definition sample_node : node := {|
  channel := Channel.create (Some Channel.sample_key);
  browser := Browser.boot
|}.

End Wired.

(* ===================================================================== *)
(** * The append-only log (specification, sections 3 and 4.1) *)
(* ===================================================================== *)

Module Log.

Definition bytes : Type := list byte.

(** Modelled from the spec: an entry of a log, which the repository takes
    from hypercore and does not define: [sequence] (0-based), [payload],
    [signature] (over sequence, payload and previous hash) and
    [previousHash] (the hash of the prior entry, null for sequence 0). *)
Record Entry : Type := {
  sequence : nat;
  payload : bytes;
  signature : bytes;
  previousHash : option bytes
}.

#[global] Instance Entry_eq_dec : EqDecision Entry.
Proof. solve_decision. Defined.

(** The hash of an entry and the signature scheme of a log. *)
Class Primitives : Type := {
  hashEntry : Entry -> bytes;
  sign : bytes -> nat -> bytes -> option bytes -> bytes;
  checkSignature : bytes -> nat -> bytes -> option bytes -> bytes -> bool
}.

(** Modelled from the spec: a log is identified by its [readKey], holds a
    [writeKey] when the node is its writer, and owns its ordered entries. *)
Record AppendOnlyLog : Type := {
  readKey : bytes;
  writeKey : option bytes;
  entries : list Entry
}.

Inductive error : Type :=
| NotAWriter
| NotFound
| Empty.

Definition create (rk : bytes) (wk : option bytes) : AppendOnlyLog :=
  {| readKey := rk; writeKey := wk; entries := [] |}.

(** [tail() -> Entry | Empty] *)
Definition tail (log : AppendOnlyLog) : Entry + error :=
  match last (entries log) with
  | Some e => inl e
  | None => inr Empty
  end.

(** [get(sequence) -> Entry | NotFound] *)
Definition get (log : AppendOnlyLog) (seq : nat) : Entry + error :=
  match entries log !! seq with
  | Some e => inl e
  | None => inr NotFound
  end.

(** The entries from a sequence number on, for replication. *)
Definition from (log : AppendOnlyLog) (fromSequence : nat) : list Entry :=
  drop fromSequence (entries log).

(** The entry before the next one: the last of the series, or the one
    the series follows. *)
Definition last_or {A : Type} (previous : option A) (l : list A) : option A :=
  match last l with
  | Some x => Some x
  | None => previous
  end.

Section Operations.
Context {P : Primitives}.

(** Modelled from the spec: [append(payload)], absent from the repository.
    It is valid only with the private key ([NotAWriter] otherwise);
    it computes [previousHash] from the current tail, signs, assigns the
    next sequence, stores and returns the new entry. *)
Definition append (log : AppendOnlyLog) (data : bytes)
  : (AppendOnlyLog * Entry) + error :=
  match writeKey log with
  | None => inr NotAWriter
  | Some wk =>
      let previous := last (entries log) in
      let previousHash := hashEntry <$> previous in
      let sequence :=
        match previous with
        | Some e => S (sequence e)
        | None => 0
        end in
      let entry := {| sequence := sequence;
                      payload := data;
                      signature := sign wk sequence data previousHash;
                      previousHash := previousHash |} in
      inl ({| readKey := readKey log;
              writeKey := writeKey log;
              entries := entries log ++ [entry] |}, entry)
  end.

(** Hash-chain continuity of an entry with the entry before it. *)
Definition continues (entry : Entry) (previousEntry : option Entry) : bool :=
  bool_decide (previousHash entry = hashEntry <$> previousEntry).

(** Modelled from the spec: [verify(entry, previousEntry)], absent from
    the repository: it checks the signature against the public key of the
    log, and hash-chain continuity. *)
Definition verify (log : AppendOnlyLog) (entry : Entry)
    (previousEntry : option Entry) : bool :=
  checkSignature (readKey log) (sequence entry) (payload entry)
    (previousHash entry) (signature entry)
  && continues entry previousEntry.

(** Appending a series of payloads; an append that fails leaves the log
    as it is. *)
Fixpoint appends (log : AppendOnlyLog) (payloads : list bytes) : AppendOnlyLog :=
  match payloads with
  | [] => log
  | data :: payloads' =>
      match append log data with
      | inl (log', _) => appends log' payloads'
      | inr _ => appends log payloads'
      end
  end.

(** A receiver's check of a series of entries that follows [previous]:
    every entry is verified against the one before it. *)
Fixpoint verified (log : AppendOnlyLog) (previous : option Entry)
    (es : list Entry) : bool :=
  match es with
  | [] => true
  | e :: es' => verify log e previous && verified log (Some e) es'
  end.

(** The same check on the hashes alone. *)
Fixpoint hash_chain (previous : option Entry) (es : list Entry) : bool :=
  match es with
  | [] => true
  | e :: es' => continues e previous && hash_chain (Some e) es'
  end.

(** Every entry carries its position as its sequence number. *)
Definition numbered (es : list Entry) : Prop :=
  forall i e, es !! i = Some e -> sequence e = i.

(** Every entry carries the hash of the entry before it, the first one
    none. *)
Definition linked (es : list Entry) : Prop :=
  forall i e,
    es !! i = Some e ->
    previousHash e = match i with
                     | 0 => None
                     | S j => hashEntry <$> es !! j
                     end.

(** No two entries of the list have the same hash. *)
Definition collision_free (es : list Entry) : Prop :=
  forall a b, In a es -> In b es -> hashEntry a = hashEntry b -> a = b.

(** Every truncation and every reordering of the entries fails the check
    of the hashes. *)
Definition tamper_evident (es : list Entry) : Prop :=
  forall es',
    es' <> es ->
    es' `prefix_of` es \/ Permutation es' es ->
    hash_chain None es' = false.

End Operations.

(** ** Stand-ins to run the log on *)

(** The hash of an entry is its sequence number followed by its payload;
    a signature is the key followed by the sequence number. *)
Definition plain_primitives : Primitives := {|
  hashEntry := fun e => Json.byte_of_Z (Z.of_nat (sequence e)) :: payload e;
  sign := fun wk seq _ _ => wk ++ [Json.byte_of_Z (Z.of_nat seq)];
  checkSignature := fun rk seq _ _ sig =>
    bool_decide (sig = rk ++ [Json.byte_of_Z (Z.of_nat seq)])
|}.

Definition sample_key : bytes := [x01; x02].

(** A log of two entries. *)
Definition sample_log : AppendOnlyLog :=
  @appends plain_primitives (create sample_key (Some sample_key))
    [[x61]; [x62]].

(** The sample log cut after its first entry. *)
Definition sample_truncation : list Entry := take 1 (entries sample_log).

(** Primitives whose hash is the same for every entry, and a log of three
    entries built with them. *)
Definition colliding_primitives : Primitives := {|
  hashEntry := fun _ => [x00];
  sign := fun wk seq _ _ => wk;
  checkSignature := fun rk _ _ _ sig => bool_decide (sig = rk)
|}.

Definition colliding_log : AppendOnlyLog :=
  @appends colliding_primitives (create sample_key (Some sample_key))
    [[x61]; [x62]; [x63]].

(** The same entries with the last two exchanged. *)
Definition colliding_log_reordered : list Entry :=
  match entries colliding_log with
  | [e0; e1; e2] => [e0; e2; e1]
  | es => es
  end.

End Log.

(* ===================================================================== *)
(** * The settings of the browser node (browser/index.js) *)
(* ===================================================================== *)

Module LocalSettings.
Import Json.

(** [object[key] = value] on a plain object: the key keeps its place when
    the object has it, and comes last otherwise. *)
Fixpoint obj_set (key : string) (x : value) (ps : list (string * value))
  : list (string * value) :=
  match ps with
  | [] => [(key, x)]
  | (k, y) :: ps' =>
      if String.eqb key k then (key, x) :: ps'
      else (k, y) :: obj_set key x ps'
  end.

(** The object literal bound to [defaultSettings]. *)
Definition defaultSettings_literal : list (string * value) :=
  [("isInitialisedNode", VBool false);
   ("isAuthorisedNode", VBool false);
   ("hyphalink", VNull);
   ("readKey", VNull);
   ("writeKey", VNull)].

(** What the variable [settings] is bound to: [null], the very object
    bound to [defaultSettings] (the two names then share it), or the value
    the last parse of the stored settings made. *)
Inductive binding : Type :=
| Null
| TheDefaults
| Parsed (v : value).

(** The page: the contents of the [defaultSettings] object, the binding of
    [settings], and [window.localStorage.settings] ([None]: [undefined]). *)
Record Page : Type := {
  defaultSettings : list (string * value);
  settings : binding;
  localStorage_settings : option json
}.

(** The page as the script starts on it, over what local storage holds. *)
Definition page_load (stored : option json) : Page := {|
  defaultSettings := defaultSettings_literal;
  settings := Null;
  localStorage_settings := stored
|}.

(** The person at the node clears the site's local storage. *)
Definition clear_storage (p : Page) : Page := {|
  defaultSettings := defaultSettings p;
  settings := settings p;
  localStorage_settings := None
|}.

(** The value of [settings]. *)
Definition current (p : Page) : value :=
  match settings p with
  | Null => VNull
  | TheDefaults => VObj (defaultSettings p)
  | Parsed v => v
  end.

(** A call returns, throws a [TypeError], or does what this model leaves
    out: the assignment of a named property to a number, a string, a
    boolean, an array or a buffer, and the assignment of [__proto__]. *)
Inductive outcome (A : Type) : Type :=
| Returned (a : A)
| Threw
| NotModelled.
Arguments Returned {A} a.
Arguments Threw {A}.
Arguments NotModelled {A}.

Definition and_then {A B : Type} (c : outcome A) (k : A -> outcome B) : outcome B :=
  match c with
  | Returned a => k a
  | Threw => Threw
  | NotModelled => NotModelled
  end.

Notation "'do' x '<-' c ';' k" := (and_then c (fun x => k))
  (at level 10, x pattern, c at level 100, k at level 200).

(** JavaScript truthiness of a property ([None]: [undefined]). *)
Definition truthy (o : option value) : bool :=
  match o with
  | None => false
  | Some VNull => false
  | Some (VBool b) => b
  | Some (VNum q) => negb (Qc_eq_bool q (Q2Qc (inject_Z 0)))
  | Some (VStr s) => negb (String.eqb s "")
  | Some _ => true
  end.

(** [persistSettings(_settings)]; [None]: the argument is [undefined], and
    [settings] is taken. *)
Definition persistSettings (p : Page) (_settings : option value) : Page :=
  let _settings :=
    match _settings with
    | None => current p
    | Some v => v
    end in
  {| defaultSettings := defaultSettings p;
     settings := settings p;
     localStorage_settings := Some (JSON_stringify _settings) |}.

(** [settings[key] = value] *)
Definition assign (p : Page) (key : string) (x : value) : outcome Page :=
  if String.eqb key "__proto__" then NotModelled
  else
    match settings p with
    | Null => Threw
    | TheDefaults =>
        Returned {| defaultSettings := obj_set key x (defaultSettings p);
                    settings := TheDefaults;
                    localStorage_settings := localStorage_settings p |}
    | Parsed (VObj ps) =>
        Returned {| defaultSettings := defaultSettings p;
                    settings := Parsed (VObj (obj_set key x ps));
                    localStorage_settings := localStorage_settings p |}
    | Parsed VNull => Threw
    | Parsed _ => NotModelled
    end.

(** [updateSetting(key, value)] *)
Definition updateSetting (p : Page) (key : string) (x : value) : outcome Page :=
  do p <- assign p key x;
  Returned (persistSettings p None).

(** [settings[key]]: reading a property of [null] throws. *)
Definition read (p : Page) (key : string) : outcome (option value) :=
  match current p with
  | VNull => Threw
  | v => Returned (get_property key v)
  end.

Section Load.

(** The conversion [Buffer.from] applies to array elements that are not
    numbers (see [Json.element_byte]). *)
Variable coerce : value -> option byte.

(** [loadSettings()]: the stored settings are parsed with buffer support;
    when there are none, [settings] becomes the [defaultSettings] object
    itself, after it has been persisted. *)
Definition loadSettings (p : Page) : outcome Page :=
  match localStorage_settings p with
  | Some stored =>
      match jsonParseWithBufferSupport coerce stored with
      | Some v =>
          Returned {| defaultSettings := defaultSettings p;
                      settings := Parsed v;
                      localStorage_settings := localStorage_settings p |}
      | None => Threw
      end
  | None =>
      let _settings := VObj (defaultSettings p) in
      let p := persistSettings p (Some _settings) in
      Returned {| defaultSettings := defaultSettings p;
                  settings := TheDefaults;
                  localStorage_settings := localStorage_settings p |}
  end.

(** What [setInitialState] decides to do. *)
Inductive initial_state : Type :=
| AuthorisedNode                 (* 'This is an authorised node. ... TODO.' *)
| InitialisedNode (readKey localReadKey localWriteKey : option value)
                                 (* createDatabase(settings.readKey, null,
                                      settings.localReadKey, settings.localWriteKey) *)
| GotReadKey (readKey : string)  (* 'Got read key from Dat DNS. ...' *)
| GettingStarted.                (* the sign-up interface *)

(** [setInitialState()], up to the call it ends in; [requestPromise] is
    the body of the answer to the discovery request. *)
Definition setInitialState (p : Page) (requestPromise : string -> string)
  : outcome (Page * initial_state) :=
  do p <- loadSettings p;
  do isInitialisedNode <- read p "isInitialisedNode";
  if truthy isInitialisedNode then
    do isAuthorisedNode <- read p "isAuthorisedNode";
    if truthy isAuthorisedNode then Returned (p, AuthorisedNode)
    else
      do readKey <- read p "readKey";
      do localReadKey <- read p "localReadKey";
      do localWriteKey <- read p "localWriteKey";
      Returned (p, InitialisedNode readKey localReadKey localWriteKey)
  else
    match Browser.getReadKeyFromDatDNS requestPromise with
    | Some readKey => Returned (p, GotReadKey readKey)
    | None => Returned (p, GettingStarted)
    end.

End Load.

Section Ready.
Context {N : Crypto.Node} {S : Crypto.Sodium}.

(** What the ['ready'] handler of the database takes from its
    surroundings: the key of the database in hex, whether [createDatabase]
    was given a write key, whether it was given both local keys, the keys
    of the local writer in hex, the key that encrypts local storage, and
    the entropy [encrypt] draws its nonce from. *)
Record ready : Type := {
  dbKeyInHex : string;
  writeKey_given : bool;
  localKeys_given : bool;
  localReadKeyInHex : string;
  localWriteKeyInHex : string;
  localStorageSecretKey : Crypto.bytes;
  entropy : nat -> byte
}.

(** The object [hyphaCrypto.encrypt] returns. *)
Definition box_value (b : Crypto.box) : value :=
  VObj [("nonce", VBuf (Crypto.nonce b)); ("ciphertext", VBuf (Crypto.ciphertext b))].

(** The ['ready'] handler of the database, as far as the settings go: up
    to [persistSettings()]; what follows in the handler (the view, the
    watcher, replication) does not touch them. *)
Definition onReady (p : Page) (r : ready) : outcome Page :=
  do p <- updateSetting p "readKey" (VStr (dbKeyInHex r));
  do p <- (if writeKey_given r
           then updateSetting p "isOriginNode" (VBool true)
           else Returned p);
  do p <- (if negb (localKeys_given r) then
             do p <- updateSetting p "localReadKey" (VStr (localReadKeyInHex r));
             match Crypto.encrypt (entropy r)
                     (Crypto.MString (localWriteKeyInHex r))
                     (Crypto.KBuffer (localStorageSecretKey r)) with
             | Crypto.Ok b => updateSetting p "localWriteKeyEncrypted" (box_value b)
             | Crypto.Throw _ => Threw
             end
           else Returned p);
  do isInitialisedNode <- read p "isInitialisedNode";
  do p <- (match isInitialisedNode with
           | Some (VBool false) => assign p "isInitialisedNode" (VBool true)
           | _ => Returned p
           end);
  Returned (persistSettings p None).

End Ready.

(** The settings a first run leaves once the database is ready: the
    defaults with the read key of the database, the origin flag when a
    write key was given, the local read key, the encrypted local write
    key, and the node marked initialised. *)
Definition settings_after_ready (r : ready) (b : Crypto.box) : list (string * value) :=
  [("isInitialisedNode", VBool true);
   ("isAuthorisedNode", VBool false);
   ("hyphalink", VNull);
   ("readKey", VStr (dbKeyInHex r));
   ("writeKey", VNull)]
  ++ (if writeKey_given r then [("isOriginNode", VBool true)] else [])
  ++ [("localReadKey", VStr (localReadKeyInHex r));
      ("localWriteKeyEncrypted", box_value b)].

(** ** Stand-ins to run the settings on *)

Definition sample_ready : ready := {|
  dbKeyInHex := "c4a99bc9";
  writeKey_given := true;
  localKeys_given := false;
  localReadKeyInHex := "0b77c7fc";
  localWriteKeyInHex := "5a7dd4be";
  localStorageSecretKey := Crypto.Buffer_from_hex Crypto.test_secretKey;
  entropy := Crypto.test_entropy
|}.

End LocalSettings.

(* ===================================================================== *)
(** * The native client (native/index.js) *)
(* ===================================================================== *)

Module Native.

(** The flag [connected] of the ['ready'] handler. *)
Record State : Type := { connected : bool }.

Definition ready : State := {| connected := false |}.

(** What a connection leads to: the replication stream piped to the
    stream of the peer, or nothing. *)
Inductive effect : Type :=
| Replicate (remoteNativeStream : nat).

(** The handler of [swarm.on('connection', ...)]: only the first
    connection is handled. *)
Definition onConnection (st : State) (remoteNativeStream : nat)
  : State * list effect :=
  if connected st then (st, [])
  else ({| connected := true |}, [Replicate remoteNativeStream]).

Fixpoint connections (st : State) (streams : list nat) : State * list effect :=
  match streams with
  | [] => (st, [])
  | stream :: streams' =>
      let '(st1, effects1) := onConnection st stream in
      let '(st2, effects2) := connections st1 streams' in
      (st2, effects1 ++ effects2)
  end.

End Native.

(* ===================================================================== *)
(** * Properties *)
(* ===================================================================== *)

Section JsonFacts.
Import Json.

Lemma byte_of_Z_of_byte (b : byte) : byte_of_Z (Z_of_byte b) = b.
Proof. destruct b; reflexivity. Qed.

Lemma ToUint8_num_of_byte (b : byte) : ToUint8 (num_of_byte b) = b.
Proof. destruct b; vm_compute; reflexivity. Qed.

Variable coerce : value -> option byte.

Lemma Buffer_from_array_bytes (bs : list byte) :
  Buffer_from_array coerce (List.map (fun b => VNum (num_of_byte b)) bs) = Some bs.
Proof.
  induction bs as [|b bs IH]; simpl; [reflexivity|].
  rewrite ToUint8_num_of_byte, IH. reflexivity.
Qed.

Lemma revive_byte_elements (bs : list byte) (i : nat) :
  revive_elements (internalize (bufferReviver coerce)) i
    (List.map (fun b => JNum (num_of_byte b)) bs)
  = Some (List.map (fun b => VNum (num_of_byte b)) bs).
Proof.
  revert i. induction bs as [|b bs IH]; intros i; simpl; [reflexivity|].
  rewrite IH. reflexivity.
Qed.

Lemma internalize_buffer (name : string) (bs : list byte) :
  internalize (bufferReviver coerce) name (JSON_stringify (VBuf bs)) = Some (VBuf bs).
Proof.
  cbn [JSON_stringify internalize revive_members fst snd].
  rewrite revive_byte_elements.
  unfold bufferReviver at 1 2. cbn.
  rewrite Buffer_from_array_bytes. reflexivity.
Qed.

Lemma reviver_not_buffer (k : string) (v : value) :
  is_serialised_buffer v = false -> bufferReviver coerce k v = Some v.
Proof. intros H. unfold bufferReviver. rewrite H. reflexivity. Qed.

Lemma revive_elements_pointwise (f : value -> json) (g : value -> value)
    (xs : list value) :
  Forall (fun x => forall name,
            internalize (bufferReviver coerce) name (f x) = Some (g x)) xs ->
  forall i, revive_elements (internalize (bufferReviver coerce)) i (List.map f xs)
            = Some (List.map g xs).
Proof.
  induction 1 as [|x xs Hx _ IH]; intros i; simpl; [reflexivity|].
  rewrite Hx, IH. reflexivity.
Qed.

Lemma revive_members_pointwise (f : value -> json) (g : value -> value)
    (ps : list (string * value)) :
  Forall (fun p => forall name,
            internalize (bufferReviver coerce) name (f (snd p)) = Some (g (snd p))) ps ->
  revive_members (internalize (bufferReviver coerce))
    (List.map (fun p => (fst p, f (snd p))) ps)
  = Some (List.map (fun p => (fst p, g (snd p))) ps).
Proof.
  induction 1 as [|p ps Hp _ IH]; simpl; [reflexivity|].
  rewrite Hp, IH. reflexivity.
Qed.

(** Serialising and reviving a value without look-alikes gives the value
    back, dates settled. *)
Lemma roundtrip_settle (v : value) :
  lookalike_free v = true ->
  forall name,
    internalize (bufferReviver coerce) name (JSON_stringify v) = Some (settle v).
Proof.
  induction v as [ | b | q | s | xs IH | ps IH | bs | iso ] using value_deep_ind;
    intros Hfree name; try reflexivity.
  - cbn [JSON_stringify internalize settle].
    rewrite (revive_elements_pointwise JSON_stringify settle).
    + reflexivity.
    + cbn [lookalike_free] in Hfree. rewrite forallb_forall in Hfree.
      rewrite Forall_forall in IH |- *. intros x Hx nm.
      apply IH; [exact Hx|]. apply Hfree. apply list_elem_of_In. exact Hx.
  - cbn [lookalike_free] in Hfree. apply andb_true_iff in Hfree as [Hshape Hfree].
    cbn [JSON_stringify internalize].
    rewrite (revive_members_pointwise JSON_stringify settle).
    + apply reviver_not_buffer. apply negb_true_iff in Hshape. exact Hshape.
    + rewrite forallb_forall in Hfree.
      rewrite Forall_forall in IH |- *. intros p Hp nm.
      apply IH; [exact Hp|]. apply (Hfree p). apply list_elem_of_In. exact Hp.
  - apply internalize_buffer.
Qed.

(** On a document none of whose objects is a serialised buffer, the
    reviver changes nothing. *)
Lemma parse_buffer_free (j : json) :
  buffer_free j = true ->
  forall name, internalize (bufferReviver coerce) name j = Some (JSON_parse j).
Proof.
  induction j as [ | b | q | s | xs IH | ps IH ] using json_deep_ind;
    intros Hfree name; try reflexivity.
  - cbn [internalize JSON_parse].
    assert (Hel : forall i, revive_elements (internalize (bufferReviver coerce)) i xs
                            = Some (List.map JSON_parse xs)).
    { cbn [buffer_free] in Hfree. clear name.
      induction xs as [|x xs IHxs]; intros i; simpl; [reflexivity|].
      simpl in Hfree. apply andb_true_iff in Hfree as [Hx Hxs].
      inversion IH as [|? ? IHx IHrest]; subst.
      rewrite (IHx Hx), (IHxs IHrest Hxs). reflexivity. }
    rewrite Hel. reflexivity.
  - cbn [buffer_free] in Hfree. apply andb_true_iff in Hfree as [Hshape Hfree].
    cbn [internalize].
    assert (Hmem : revive_members (internalize (bufferReviver coerce)) ps
                   = Some (List.map (fun p => (fst p, JSON_parse (snd p))) ps)).
    { clear Hshape name.
      induction ps as [|p ps IHps]; simpl; [reflexivity|].
      simpl in Hfree. apply andb_true_iff in Hfree as [Hp Hps].
      inversion IH as [|? ? IHp IHrest]; subst.
      rewrite (IHp Hp), (IHps IHrest Hps). reflexivity. }
    rewrite Hmem. apply reviver_not_buffer.
    apply negb_true_iff in Hshape. exact Hshape.
Qed.

Lemma buffers_of_settle (v : value) : buffers_of (settle v) = buffers_of v.
Proof.
  induction v as [ | b | q | s | xs IH | ps IH | bs | iso ] using value_deep_ind;
    try reflexivity.
  - cbn [settle buffers_of]. induction IH as [|x xs Hx _ IHxs]; simpl; [reflexivity|].
    rewrite Hx, IHxs. reflexivity.
  - cbn [settle buffers_of]. induction IH as [|p ps Hp _ IHps]; simpl; [reflexivity|].
    rewrite Hp, IHps. reflexivity.
Qed.

Lemma settle_date_free (v : value) : date_free v = true -> settle v = v.
Proof.
  induction v as [ | b | q | s | xs IH | ps IH | bs | iso ] using value_deep_ind;
    intros Hd; try reflexivity; try discriminate.
  - cbn [settle]. f_equal. cbn [date_free] in Hd.
    induction IH as [|x xs Hx _ IHxs]; simpl; [reflexivity|].
    simpl in Hd. apply andb_true_iff in Hd as [H1 H2].
    rewrite (Hx H1), (IHxs H2). reflexivity.
  - cbn [settle]. f_equal. cbn [date_free] in Hd.
    induction IH as [|p ps Hp _ IHps]; simpl; [reflexivity|].
    simpl in Hd. apply andb_true_iff in Hd as [H1 H2].
    rewrite (Hp H1), (IHps H2). destruct p; reflexivity.
Qed.

(** C10, amended: for every value none of whose plain objects has, once
    serialised, the shape of a serialised buffer, parsing its serialisation
    with buffer support gives the value back with every buffer
    reconstituted, byte for byte (and the value itself when it holds no
    date, a date coming back as its ISO string); and on every document
    none of whose objects has the shape of a serialised buffer, parsing
    with buffer support is plain [JSON.parse]. *)
Theorem jsonParseWithBufferSupport_round_trip (v : value) (j : json) :
  lookalike_free v = true ->
  buffer_free j = true ->
  jsonParseWithBufferSupport coerce (JSON_stringify v) = Some (settle v)
  /\ buffers_of (settle v) = buffers_of v
  /\ (date_free v = true -> settle v = v)
  /\ reconstitutes_every_buffer coerce v
  /\ jsonParseWithBufferSupport coerce j = Some (JSON_parse j).
Proof.
  intros Hv Hj.
  assert (Hrt : jsonParseWithBufferSupport coerce (JSON_stringify v) = Some (settle v)).
  { apply roundtrip_settle. exact Hv. }
  split_and!.
  - exact Hrt.
  - apply buffers_of_settle.
  - apply settle_date_free.
  - exists (settle v). split; [exact Hrt|].
    rewrite buffers_of_settle. apply incl_refl.
  - apply parse_buffer_free. exact Hj.
Qed.

End JsonFacts.

Lemma jsonParseWithBufferSupport_round_trip_witness :
  Json.jsonParseWithBufferSupport Json.coerce_nan (Json.JSON_stringify Json.test_obj)
  = Some Json.test_obj
  /\ Json.jsonParseWithBufferSupport Json.coerce_nan
       (Json.JArr [Json.JNull; Json.JObj [("type", Json.JStr "Buffer")]])
     = Some (Json.VArr [Json.VNull; Json.VObj [("type", Json.VStr "Buffer")]]).
Proof.
  destruct (jsonParseWithBufferSupport_round_trip Json.coerce_nan Json.test_obj
              (Json.JArr [Json.JNull; Json.JObj [("type", Json.JStr "Buffer")]])
              eq_refl eq_refl) as (H1 & _ & _ & _ & H2).
  split; [exact H1|exact H2].
Defined.

(** The test of test/lib/utils.js: the buffer of the parsed object is the
    buffer of the object. *)
Example buffer_with_JSON_should_parse :
  forall parsedObj,
    Json.jsonParseWithBufferSupport Json.coerce_nan (Json.JSON_stringify Json.test_obj)
    = Some parsedObj ->
    Json.get_property "buffer" parsedObj = Json.get_property "buffer" Json.test_obj.
Proof. intros parsedObj [= <-]. reflexivity. Qed.

(** C10, as stated, fails: the plain object
    [{type: 'Buffer', data: [], payload: Buffer.from([1])}] comes back as
    an empty buffer, and the buffer it held is gone. *)
Lemma lookalike_object_loses_its_buffer :
  Json.jsonParseWithBufferSupport Json.coerce_nan
    (Json.JSON_stringify Json.lookalike_obj) = Some (Json.VBuf [])
  /\ Json.buffers_of Json.lookalike_obj = [[x01]]
  /\ ~ Json.reconstitutes_every_buffer Json.coerce_nan Json.lookalike_obj.
Proof.
  split; [reflexivity|]. split; [reflexivity|].
  intros (r & Hr & Hincl).
  assert (Hr' : r = Json.VBuf []) by (cbv in Hr; congruence).
  subst r. specialize (Hincl [x01] (or_introl eq_refl)).
  cbn in Hincl. destruct Hincl as [H|[]]. discriminate H.
Qed.

Section BrowserFacts.
Import Json Browser.

Variable JSON_text : json -> string.
Variable sha256_hex : string -> string.

Local Abbreviation hash := (createMessageHash JSON_text sha256_hex).
Local Abbreviation step := (Browser.step JSON_text sha256_hex).
Local Abbreviation run := (Browser.run JSON_text sha256_hex).
Local Abbreviation touches := (Browser.touches JSON_text sha256_hex).

Lemma seen_mark_seen (st : State) (h h' : string) :
  seen (mark_seen st h) h' = String.eqb h h' || seen st h'.
Proof.
  unfold mark_seen. destruct (String.eqb_spec h "__proto__") as [->|Hp].
  - destruct (String.eqb_spec "__proto__" h') as [<-|Hne]; [|reflexivity].
    unfold seen. destruct (ephemeralMessageHashes st !! "__proto__"); reflexivity.
  - unfold seen; cbn [ephemeralMessageHashes].
    rewrite lookup_insert. destruct (String.eqb_spec h h') as [->|Hne].
    + rewrite decide_True by reflexivity. reflexivity.
    + rewrite decide_False by exact Hne. reflexivity.
Qed.

Lemma hashes_mark_seen (st : State) (h : string) :
  ephemeralMessageHashes (mark_seen st h) = ephemeralMessageHashes st
  \/ ephemeralMessageHashes (mark_seen st h)
     = <[h := true]> (ephemeralMessageHashes st).
Proof.
  unfold mark_seen. destruct (String.eqb h "__proto__"); [left|right]; reflexivity.
Qed.

Lemma lastRequest_mark_seen (st : State) (h : string) :
  lastRequest (mark_seen st h) = lastRequest st.
Proof. unfold mark_seen. destruct (String.eqb h "__proto__"); reflexivity. Qed.


Lemma seen_onMessage (st : State) (message : value) (h : string) :
  seen (fst (onMessage JSON_text sha256_hex st message)) h
  = String.eqb (hash message) h || seen st h.
Proof.
  unfold onMessage. destruct (seen st (hash message)) eqn:Hs; cbn [fst].
  - destruct (String.eqb_spec (hash message) h) as [<-|Hne]; [|reflexivity].
    rewrite Hs. reflexivity.
  - apply seen_mark_seen.
Qed.

Lemma app_step_message (n : Node) (message : value) :
  app (fst (step n (Message message)))
  = fst (onMessage JSON_text sha256_hex (app n) message).
Proof.
  cbn [Browser.step].
  destruct (onMessage JSON_text sha256_hex (app n) message) as [st r].
  destruct r; reflexivity.
Qed.

Lemma hashes_authorizedCallback (request : value) (answer : authorized) (st : State) :
  ephemeralMessageHashes (authorizedCallback request answer st)
  = ephemeralMessageHashes st.
Proof. destruct answer as [|[|]]; reflexivity. Qed.

(** A step marks the hash its event concerns, and nothing else. *)
Lemma seen_step (n : Node) (e : event) (h : string) :
  seen (app (fst (step n e))) h = touches h e || seen (app n) h.
Proof.
  destruct e as [message | | i answer | nodeName timestamp localKey | ].
  - rewrite app_step_message. apply seen_onMessage.
  - reflexivity.
  - cbn [Browser.step Browser.touches orb]. destruct (pending n !! i); [|reflexivity].
    cbn [fst app]. unfold seen. rewrite hashes_authorizedCallback. reflexivity.
  - cbn [Browser.step onRequestAuthorisation fst app Browser.touches]. apply seen_mark_seen.
  - reflexivity.
Qed.





Lemma seen_run (events : list event) :
  forall n h,
    seen (app (fst (run n events))) h = existsb (touches h) events || seen (app n) h.
Proof.
  induction events as [|e events IH]; intros n h; [reflexivity|].
  cbn [Browser.run existsb].
  destruct (step n e) as [n1 effects1] eqn:H1.
  specialize (IH n1 h). destruct (run n1 events) as [n2 effects2].
  cbn [fst] in *. rewrite IH.
  replace n1 with (fst (step n e)) by (rewrite H1; reflexivity).
  rewrite seen_step. rewrite orb_assoc.
  f_equal. apply orb_comm.
Qed.


Lemma hashes_step (n : Node) (e : event) :
  ephemeralMessageHashes (app (fst (step n e))) = ephemeralMessageHashes (app n)
  \/ exists h,
       ephemeralMessageHashes (app (fst (step n e)))
       = <[h := true]> (ephemeralMessageHashes (app n)).
Proof.
  destruct e as [message | | i answer | nodeName timestamp localKey | ].
  - rewrite app_step_message. unfold onMessage.
    destruct (seen (app n) (hash message)); [left; reflexivity|].
    cbn [fst]. destruct (hashes_mark_seen (app n) (hash message)) as [H|H];
      [left|right; exists (hash message)]; exact H.
  - left. reflexivity.
  - left. cbn [Browser.step]. destruct (pending n !! i); [|reflexivity].
    apply hashes_authorizedCallback.
  - cbn [Browser.step onRequestAuthorisation fst app].
    destruct (hashes_mark_seen (app n)
                (hash (authorisationRequest nodeName timestamp localKey)))
      as [H|H]; [left|right; eexists]; exact H.
  - left. reflexivity.
Qed.

Lemma dom_hashes_step (n : Node) (e : event) :
  dom (ephemeralMessageHashes (app n))
  ⊆ dom (ephemeralMessageHashes (app (fst (step n e)))).
Proof.
  destruct (hashes_step n e) as [-> | [h ->]]; [reflexivity|].
  rewrite dom_insert_L. set_solver.
Qed.

Lemma dom_hashes_run (events : list event) :
  forall n,
    dom (ephemeralMessageHashes (app n))
    ⊆ dom (ephemeralMessageHashes (app (fst (run n events)))).
Proof.
  induction events as [|e events IH]; intros n; [reflexivity|].
  cbn [Browser.run].
  destruct (step n e) as [n1 effects1] eqn:H1.
  specialize (IH n1). destruct (run n1 events) as [n2 effects2].
  cbn [fst] in *. etransitivity; [|exact IH].
  replace n1 with (fst (step n e)) by (rewrite H1; reflexivity).
  apply dom_hashes_step.
Qed.

(** C6: every step of the node leaves [ephemeralMessageHashes] as it is or
    adds one content hash to it; along any run the set of seen hashes only
    grows, and a hash is seen after the run exactly when it was seen before
    or an event of the run marked it. *)
Theorem seen_set_only_grows (n : Node) (e : event) (events : list event) (h : string) :
  (ephemeralMessageHashes (app (fst (step n e))) = ephemeralMessageHashes (app n)
   \/ exists h',
        ephemeralMessageHashes (app (fst (step n e)))
        = <[h' := true]> (ephemeralMessageHashes (app n)))
  /\ dom (ephemeralMessageHashes (app n))
     ⊆ dom (ephemeralMessageHashes (app (fst (run n events))))
  /\ seen (app (fst (run n events))) h
     = existsb (touches h) events || seen (app n) h.
Proof.
  split; [apply hashes_step|]. split; [apply dom_hashes_run|apply seen_run].
Qed.

Lemma lastRequest_onMessage (st : State) (message : value) :
  lastRequest (fst (onMessage JSON_text sha256_hex st message)) = lastRequest st.
Proof.
  unfold onMessage. destruct (seen st (hash message)); [reflexivity|].
  apply lastRequest_mark_seen.
Qed.

Lemma step_message_effects (n : Node) (message : value) (readKey : option value) :
  ~ In (DbAuthorize readKey) (snd (step n (Message message))).
Proof.
  cbn [Browser.step].
  destruct (onMessage JSON_text sha256_hex (app n) message) as [st r].
  destruct r; cbn; intros H; intuition discriminate.
Qed.

Lemma pending_step_message (n : Node) (message : value) (r : value) :
  In r (pending (fst (step n (Message message)))) ->
  In r (pending n) \/ r = message.
Proof.
  cbn [Browser.step].
  destruct (onMessage JSON_text sha256_hex (app n) message) as [st re].
  destruct re; cbn [fst pending]; auto.
  rewrite in_app_iff. cbn. intuition.
Qed.

(** Along a run, every call to [db.authorize] is for the key of a request
    that was received and for which [db.authorized] had answered [true]. *)
Lemma authorize_traced (events : list event) :
  forall (n : Node) (acc rcv : list value),
    (forall r, lastRequest (app n) = Some r -> In r acc) ->
    (forall r, In r (pending n) -> In r rcv) ->
    (forall r, In r acc -> In r rcv) ->
    forall readKey,
      In (DbAuthorize readKey) (snd (run n events)) ->
      exists r, In r (acc ++ approved JSON_text sha256_hex n events)
                /\ In r (rcv ++ received events)
                /\ readKey = get_property "readKey" r.
Proof.
  induction events as [|e events IH]; intros n acc rcv Hlast Hpend Hacc readKey Hin;
    [destruct Hin|].
  cbn [Browser.run] in Hin.
  destruct (step n e) as [n1 effects1] eqn:H1.
  destruct (run n1 events) as [n2 effects2] eqn:H2.
  cbn [snd] in Hin. apply in_app_iff in Hin.
  assert (Hn1 : n1 = fst (step n e)) by (rewrite H1; reflexivity).
  assert (He1 : effects1 = snd (step n e)) by (rewrite H1; reflexivity).
  assert (Hrun : effects2 = snd (run n1 events)) by (rewrite H2; reflexivity).
  clear H1 H2. cbn [approved received]. rewrite <- Hn1.
  destruct e as [message | | i answer | nodeName timestamp localKey | ].
  - (* a message arrives *)
    destruct Hin as [Hin|Hin];
      [rewrite He1 in Hin; exfalso; exact (step_message_effects _ _ _ Hin)|].
    rewrite Hrun in Hin.
    destruct (IH n1 acc (rcv ++ [message])) with (readKey := readKey)
      as (r & Hr1 & Hr2 & Hr3); try assumption.
    + intros r Hr. apply Hlast. rewrite <- Hr, Hn1, app_step_message.
      symmetry. apply lastRequest_onMessage.
    + intros r Hr. rewrite Hn1 in Hr. apply pending_step_message in Hr.
      apply in_app_iff. destruct Hr as [Hr| ->]; [left; auto|right; left; reflexivity].
    + intros r Hr. apply in_app_iff. left. auto.
    + exists r. split; [exact Hr1|]. split; [|exact Hr3].
      rewrite <- app_assoc in Hr2. exact Hr2.
  - (* a bad message *)
    destruct Hin as [Hin|Hin];
      [rewrite He1 in Hin; cbn in Hin; intuition discriminate|].
    rewrite Hrun in Hin.
    destruct (IH n1 acc rcv) with (readKey := readKey)
      as (r & Hr1 & Hr2 & Hr3); try assumption.
    + rewrite Hn1. exact Hlast.
    + rewrite Hn1. exact Hpend.
    + exists r. auto.
  - (* db.authorized answers *)
    cbn [Browser.step] in Hn1, He1.
    destruct (pending n !! i) as [request|] eqn:Hi; cbn [fst snd] in Hn1, He1.
    + destruct Hin as [Hin|Hin]; [rewrite He1 in Hin; destruct Hin|].
      rewrite Hrun in Hin.
      assert (Hreq : In request rcv).
      { apply Hpend. apply list_elem_of_In. eapply list_elem_of_lookup_2. exact Hi. }
      assert (Hpend' : forall r, In r (pending n1) -> In r rcv).
      { rewrite Hn1. cbn [pending]. intros r Hr. apply Hpend. apply list_elem_of_In.
        eapply list_elem_of_delete_inv. apply list_elem_of_In. exact Hr. }
      destruct answer as [|[|]].
      * destruct (IH n1 acc rcv) with (readKey := readKey)
          as (r & Hr1 & Hr2 & Hr3); try assumption.
        -- rewrite Hn1. exact Hlast.
        -- exists r. auto.
      * destruct (IH n1 (acc ++ [request]) rcv) with (readKey := readKey)
          as (r & Hr1 & Hr2 & Hr3); try assumption.
        -- rewrite Hn1. cbn. intros r [= <-]. apply in_app_iff. right. left. reflexivity.
        -- intros r Hr. apply in_app_iff in Hr. destruct Hr as [Hr|[<-|[]]]; auto.
        -- exists r. split; [|split; assumption].
           rewrite <- app_assoc in Hr1. exact Hr1.
      * destruct (IH n1 acc rcv) with (readKey := readKey)
          as (r & Hr1 & Hr2 & Hr3); try assumption.
        -- rewrite Hn1. exact Hlast.
        -- exists r. auto.
    + destruct Hin as [Hin|Hin]; [rewrite He1 in Hin; destruct Hin|].
      rewrite Hrun in Hin.
      destruct (IH n1 acc rcv) with (readKey := readKey)
        as (r & Hr1 & Hr2 & Hr3); try assumption.
      * rewrite Hn1. exact Hlast.
      * rewrite Hn1. exact Hpend.
      * exists r. split; [|split; assumption].
        destruct answer as [|[|]]; exact Hr1.
  - (* the node asks for authorisation itself *)
    destruct Hin as [Hin|Hin];
      [rewrite He1 in Hin; cbn in Hin; intuition discriminate|].
    rewrite Hrun in Hin.
    destruct (IH n1 acc rcv) with (readKey := readKey)
      as (r & Hr1 & Hr2 & Hr3); try assumption.
    + rewrite Hn1. cbn [Browser.step onRequestAuthorisation fst app].
      rewrite lastRequest_mark_seen. exact Hlast.
    + rewrite Hn1. exact Hpend.
    + exists r. auto.
  - (* the person at the node authorises the last request *)
    cbn [Browser.step fst snd] in Hn1, He1. subst n1.
    destruct Hin as [Hin|Hin].
    + rewrite He1 in Hin.
      unfold onAuthorise in Hin. destruct (lastRequest (app n)) as [request|] eqn:Hl.
      * destruct Hin as [[= <-]|[]]. exists request.
        split; [apply in_app_iff; left; auto|].
        split; [apply in_app_iff; left; auto|reflexivity].
      * cbn in Hin. intuition discriminate.
    + rewrite Hrun in Hin.
      destruct (IH n acc rcv) with (readKey := readKey)
        as (r & Hr1 & Hr2 & Hr3); try assumption.
      exists r. auto.
Qed.

(** C5: the callback of [db.authorized] puts the request before the person
    at the node (as [model.lastRequest], with the panel shown) exactly when
    the answer is [true] without error, and leaves the node as it was on
    [false] and on an error; receiving a request never calls
    [db.authorize]; and along any run from start-up, every call to
    [db.authorize] is for the key of a request that was received and for
    which the local writer was found authorised when the request was
    handled. *)
Theorem authorisation_needs_an_authorised_local_writer
    (st : State) (n : Node) (request message : value) (answer : authorized)
    (i : nat) (events : list event) (readKey : option value) :
  authorizedCallback request answer st
  = (if is_authorised answer then surfaced request st else st)
  /\ step n (AuthorizedAnswers i AuthorizedError)
     = (match pending n !! i with
        | Some _ => {| app := app n; pending := delete i (pending n) |}
        | None => n
        end, [])
  /\ step n (AuthorizedAnswers i (Authorized false))
     = (match pending n !! i with
        | Some _ => {| app := app n; pending := delete i (pending n) |}
        | None => n
        end, [])
  /\ ~ In (DbAuthorize readKey) (snd (step n (Message message)))
  /\ (In (DbAuthorize readKey) (snd (run boot events)) ->
      exists r, In r (approved JSON_text sha256_hex boot events)
                /\ In r (received events)
                /\ readKey = get_property "readKey" r).
Proof.
  split_and!.
  - destruct answer as [|[|]]; reflexivity.
  - cbn [Browser.step]. destruct (pending n !! i); reflexivity.
  - cbn [Browser.step]. destruct (pending n !! i); reflexivity.
  - apply step_message_effects.
  - intros Hin.
    destruct (authorize_traced events boot [] []) with (readKey := readKey)
      as (r & Hr1 & Hr2 & Hr3); try assumption.
    + cbn. discriminate.
    + cbn. intros r [].
    + intros r [].
    + exists r. auto.
Qed.

End BrowserFacts.

Lemma authorisation_needs_an_authorised_local_writer_witness :
  In (Browser.DbAuthorize (Some (Json.VStr "c4a99bc9")))
     (snd (Browser.run Browser.print_json Browser.plain_digest
             Browser.boot Browser.sample_run))
  /\ exists r,
       In r (Browser.approved Browser.print_json Browser.plain_digest
               Browser.boot Browser.sample_run)
       /\ In r (Browser.received Browser.sample_run)
       /\ Some (Json.VStr "c4a99bc9") = Json.get_property "readKey" r.
Proof.
  assert (H : In (Browser.DbAuthorize (Some (Json.VStr "c4a99bc9")))
                (snd (Browser.run Browser.print_json Browser.plain_digest
                        Browser.boot Browser.sample_run))).
  { vm_compute. right. left. reflexivity. }
  split; [exact H|].
  exact (proj2 (proj2 (proj2 (proj2
    (authorisation_needs_an_authorised_local_writer
       Browser.print_json Browser.plain_digest
       Browser.initial Browser.boot Json.VNull Json.VNull Browser.AuthorizedError
       0 Browser.sample_run (Some (Json.VStr "c4a99bc9")))))) H).
Defined.

Section ChannelFacts.
Import Json.

Variable open : Channel.bytes -> Channel.bytes -> option value.
Variable contentHash : value -> string.

Local Abbreviation run := (Channel.run open contentHash).
Local Abbreviation step := (Channel.step open contentHash).

(** A step never changes the key of a channel. *)
Lemma secretKey_step (ch : Channel.channel) (e : Channel.event) :
  Channel.secretKey (fst (step ch e)) = Channel.secretKey ch.
Proof.
  destruct e as [s | db p | db from c]; try reflexivity.
  cbn [Channel.step]. unfold Channel.onReceive.
  destruct (Channel.secretKey ch) as [key|] eqn:Hk; [|exact Hk].
  destruct (open key c); [|exact Hk].
  destruct (decide _); [exact Hk|reflexivity].
Qed.

(** A channel without a key, along any run, keeps its seen-set, fires no
    event, and sends exactly the received frames to the other live
    sessions. *)
Lemma relay_run (events : list Channel.event) :
  forall ch,
    Channel.secretKey ch = None ->
    Channel.secretKey (fst (run ch events)) = None
    /\ Channel.seenSet (fst (run ch events)) = Channel.seenSet ch
    /\ snd (run ch events) = Channel.forwarded (Channel.sessions ch) events.
Proof.
  induction events as [|e events IH]; intros ch Hk; [auto|].
  cbn [Channel.run].
  destruct (step ch e) as [ch1 actions1] eqn:H1.
  assert (Hk1 : Channel.secretKey ch1 = None).
  { replace ch1 with (fst (step ch e)) by (rewrite H1; reflexivity).
    rewrite secretKey_step. exact Hk. }
  destruct (IH ch1 Hk1) as (IHk & IHs & IHf).
  destruct (run ch1 events) as [ch2 actions2].
  cbn [fst snd] in *. rewrite IHk, IHs, IHf. split; [reflexivity|].
  destruct e as [s | db p | db from c]; cbn [Channel.step] in H1.
  - injection H1 as <- <-. auto.
  - injection H1 as <- <-. auto.
  - unfold Channel.onReceive in H1. rewrite Hk in H1. injection H1 as <- <-. auto.
Qed.

Lemma forwarded_no_emit (events : list Channel.event) :
  forall sessions,
    forallb (fun a => negb (Channel.is_emit a)) (Channel.forwarded sessions events) = true.
Proof.
  induction events as [|e events IH]; intros sessions; [reflexivity|].
  destruct e as [s | db p | db from c]; cbn [Channel.forwarded]; try apply IH.
  rewrite forallb_app, IH, andb_true_r.
  apply forallb_forall. intros a Ha. apply in_map_iff in Ha as (q & <- & _).
  reflexivity.
Qed.

Lemma forwarded_delivers_nothing (events : list Channel.event) :
  forall sessions, Channel.delivered (Channel.forwarded sessions events) = [].
Proof.
  induction events as [|e events IH]; intros sessions; [reflexivity|].
  destruct e as [s | db p | db from c]; cbn [Channel.forwarded]; try apply IH.
  induction (List.map Channel.peer _) as [|q qs IHq]; [apply IH|exact IHq].
Qed.

End ChannelFacts.

(** Without a key, a run applies neither the decryption nor the hash. *)
Lemma relay_run_independent
    (open open' : Channel.bytes -> Channel.bytes -> option Json.value)
    (contentHash contentHash' : Json.value -> string)
    (events : list Channel.event) :
  forall ch,
    Channel.secretKey ch = None ->
    Channel.run open contentHash ch events = Channel.run open' contentHash' ch events.
Proof.
  induction events as [|e events IH]; intros ch Hk; [reflexivity|].
  cbn [Channel.run].
  assert (Hstep : Channel.step open contentHash ch e
                  = Channel.step open' contentHash' ch e).
  { destruct e; try reflexivity. cbn [Channel.step]. unfold Channel.onReceive.
    rewrite Hk. reflexivity. }
  rewrite <- Hstep.
  destruct (Channel.step open contentHash ch e) as [ch1 actions1] eqn:H1.
  rewrite (IH ch1); [reflexivity|].
  replace ch1 with (fst (Channel.step open contentHash ch e))
    by (rewrite H1; reflexivity).
  rewrite secretKey_step. exact Hk.
Qed.

(** C2: on the channel the always-on node constructs without a key, along
    any run of sessions opening, closing and frames arriving, no [message]
    (or other) event is fired, no message is handed to the application,
    the seen-set stays empty, and the frames written are exactly the
    received ciphertexts, unchanged, to the other live sessions for the
    same database; the run does not depend on the decryption or the hash
    function, which are never applied. *)
Theorem relay_only_forwards_ciphertext
    (open open' : Channel.bytes -> Channel.bytes -> option Json.value)
    (contentHash contentHash' : Json.value -> string)
    (events : list Channel.event) :
  let relay := AlwaysOn.secureEphemeralMessagingChannel in
  Channel.secretKey relay = None
  /\ Channel.seenSet (fst (Channel.run open contentHash relay events)) = ∅
  /\ forallb (fun a => negb (Channel.is_emit a))
       (snd (Channel.run open contentHash relay events)) = true
  /\ Channel.delivered (snd (Channel.run open contentHash relay events)) = []
  /\ snd (Channel.run open contentHash relay events) = Channel.forwarded [] events
  /\ Channel.run open contentHash relay events
     = Channel.run open' contentHash' relay events.
Proof.
  intros relay.
  destruct (relay_run open contentHash events relay eq_refl) as (Hk & Hs & Hf).
  split_and!.
  - reflexivity.
  - exact Hs.
  - rewrite Hf. apply forwarded_no_emit.
  - rewrite Hf. apply forwarded_delivers_nothing.
  - exact Hf.
  - apply relay_run_independent. reflexivity.
Qed.

(** C4: when the frame received by a node that holds a key does not
    authenticate under that key, the receive operation fires the
    bad-message event and nothing else: nothing is thrown, no [message]
    event is fired and no message reaches the application, whose only
    reaction is the console line of its ['received-bad-message'] handler;
    the channel (its seen-set included) and the browser node (its
    [ephemeralMessageHashes] included) are left as they were. *)
Theorem bad_message_is_reported_not_delivered
    (JSON_text : Json.json -> string) (sha256_hex : string -> string)
    (open : Channel.bytes -> Channel.bytes -> option Json.value)
    (contentHash : Json.value -> string)
    (n : Wired.node) (key : Channel.bytes) (db : string) (from : nat)
    (ciphertext : Channel.bytes) :
  Channel.secretKey (Wired.channel n) = Some key ->
  open key ciphertext = None ->
  let '(n', actions, effects) :=
    Wired.receive JSON_text sha256_hex open contentHash n db from ciphertext in
  n' = n
  /\ actions = [Channel.EmitBadMessage db from]
  /\ Channel.delivered actions = []
  /\ effects = Browser.onReceivedBadMessage
  /\ Channel.seenSet (Wired.channel n') = Channel.seenSet (Wired.channel n)
  /\ Browser.ephemeralMessageHashes (Browser.app (Wired.browser n'))
     = Browser.ephemeralMessageHashes (Browser.app (Wired.browser n)).
Proof.
  intros Hkey Hopen. unfold Wired.receive, Channel.onReceive.
  rewrite Hkey, Hopen. destruct n as [ch b]. cbn. auto 10.
Qed.

Lemma bad_message_is_reported_not_delivered_witness :
  Wired.receive Browser.print_json Browser.plain_digest
    Channel.prefix_open Channel.string_hash
    Wired.sample_node "hypha" 1 Channel.sample_forgery
  = (Wired.sample_node, [Channel.EmitBadMessage "hypha" 1],
     Browser.onReceivedBadMessage).
Proof.
  pose proof (bad_message_is_reported_not_delivered
                Browser.print_json Browser.plain_digest
                Channel.prefix_open Channel.string_hash
                Wired.sample_node Channel.sample_key "hypha" 1
                Channel.sample_forgery eq_refl eq_refl) as H.
  destruct (Wired.receive _ _ _ _ _ _ _ _) as [[n' actions] effects].
  destruct H as (-> & -> & _ & -> & _). reflexivity.
Defined.

Section AlwaysOnFacts.
Import Json AlwaysOn.

Lemma settings_serve (st : Server) (r : request) :
  settings st = defaultSettings -> settings (fst (serve st r)) = defaultSettings.
Proof.
  intros Hs. destruct r as [key | | key]; cbn [serve].
  - unfold signUp. rewrite Hs. exact Hs.
  - unfold hypha. rewrite Hs. cbn. unfold replicate.
    destruct (_ || _); exact Hs.
  - exact Hs.
Qed.

Lemma settings_serve_all (rs : list request) :
  forall st,
    settings st = defaultSettings ->
    settings (fst (serve_all st rs)) = defaultSettings.
Proof.
  induction rs as [|r rs IH]; intros st Hs; [exact Hs|].
  cbn [serve_all].
  destruct (serve st r) as [st1 effects1] eqn:H1.
  assert (Hs1 : settings st1 = defaultSettings).
  { replace st1 with (fst (serve st r)) by (rewrite H1; reflexivity).
    apply settings_serve. exact Hs. }
  specialize (IH st1 Hs1).
  destruct (serve_all st1 rs). exact IH.
Qed.

(** C3, on the code: a node started without a settings file holds the
    default read key, the empty string; it is not provisioned, and yet its
    sign-up route answers with the already-exists error, closes the
    socket, starts no replication and stores nothing; this stays so
    whatever requests the node has served before. *)
Theorem sign_up_is_refused_on_a_fresh_node (key : string) (before : list request) :
  provisioned (start None) = false
  /\ signUp (start None) key
     = (start None, [WsSendError "Hypha already exists."; WsClose])
  /\ provisioned (fst (serve_all (start None) before)) = false
  /\ refused (snd (signUp (fst (serve_all (start None) before)) key)) = true
  /\ fst (signUp (fst (serve_all (start None) before)) key)
     = fst (serve_all (start None) before).
Proof.
  pose proof (settings_serve_all before (start None) eq_refl) as Hs.
  split_and!; try reflexivity.
  - unfold provisioned. rewrite Hs. reflexivity.
  - unfold signUp. rewrite Hs. reflexivity.
  - unfold signUp. rewrite Hs. reflexivity.
Qed.

(** C7: asked for the well-known path, the always-on node answers in plain
    text with the read key of its settings, as it is; the client takes an
    empty answer for the absence of the record and returns [null], and
    returns any other answer unchanged; so the client gets the read key of
    the settings when one is stored, and [null] from a node that still
    holds the default settings. *)
Theorem discovery_record_is_the_stored_read_key
    (key : string) (requestPromise : string -> string) :
  middleware {| readKey := VStr key |} "/.well-known/dat"
  = [SetHeader "Content-Type" "text/plain"; End_ key]
  /\ Browser.getReadKeyFromDatDNS requestPromise
     = (if String.eqb (requestPromise "https://localhost:443/.well-known/dat") ""
        then None
        else Some (requestPromise "https://localhost:443/.well-known/dat"))
  /\ Browser.getReadKeyFromDatDNS (fun _ => "") = None
  /\ Browser.getReadKeyFromDatDNS (respond {| readKey := VStr key |})
     = (if String.eqb key "" then None else Some key)
  /\ Browser.getReadKeyFromDatDNS (respond defaultSettings) = None.
Proof. split_and!; reflexivity. Qed.

End AlwaysOnFacts.

Section CryptoFacts.
Import Json Crypto.


Context {N : Node} {NC : NodeContract N} {S : Sodium} {SC : SodiumContract S}.

Lemma Buffer_alloc_nat (n : nat) : Buffer_alloc (Z.of_nat n) = Ok (repeat x00 n).
Proof.
  unfold Buffer_alloc. destruct (Z.ltb_spec (Z.of_nat n) 0) as [H|_]; [lia|].
  rewrite Nat2Z.id. reflexivity.
Qed.



(** X4: [decrypt] does not look at what [crypto_secretbox_open_easy]
    returns: on a ciphertext that does not authenticate it returns the
    string of the zero-filled buffer it allocated. *)
Remark decrypt_of_unauthentic_ciphertext
    (c : bytes) (secretKey : secret_key) (n : bytes) :
  length n = crypto_secretbox_NONCEBYTES ->
  length (key_buffer secretKey) = crypto_secretbox_KEYBYTES ->
  crypto_secretbox_MACBYTES <= length c ->
  secretbox_open c n (key_buffer secretKey) = None ->
  decrypt c secretKey n
  = Ok (Buffer_toString_utf8 (repeat x00 (length c - crypto_secretbox_MACBYTES))).
Proof.
  intros Hn Hk Hc Hopen. unfold decrypt. rewrite Hn, Nat.eqb_refl. cbn [negb].
  replace (Z.of_nat (length c) - Z.of_nat crypto_secretbox_MACBYTES)%Z
    with (Z.of_nat (length c - crypto_secretbox_MACBYTES)) by lia.
  rewrite Buffer_alloc_nat. cbn [bind]. unfold crypto_secretbox_open_easy.
  rewrite repeat_length, Hn, Hk, !Nat.eqb_refl.
  replace (length c - crypto_secretbox_MACBYTES + crypto_secretbox_MACBYTES)
    with (length c) by lia.
  rewrite Nat.eqb_refl, Hopen. reflexivity.
Qed.

End CryptoFacts.

Lemma ascii_node_contract : Crypto.NodeContract Crypto.ascii_node.
Proof. constructor. intros s _. apply string_of_list_byte_of_string. Qed.

Lemma length_tag_of (key : Crypto.bytes) : length (Crypto.tag_of key) = 16.
Proof.
  unfold Crypto.tag_of. rewrite length_take_le; [reflexivity|].
  rewrite length_app, repeat_length. lia.
Qed.

Lemma tagged_sodium_contract : Crypto.SodiumContract Crypto.tagged_sodium.
Proof.
  constructor; cbn.
  - intros m n k. rewrite length_app, length_tag_of. lia.
  - intros m n k _ _. rewrite decide_True.
    + rewrite drop_app_length' by (symmetry; apply length_tag_of). reflexivity.
    + split; [rewrite length_app, length_tag_of; lia|].
      apply take_app_length'. symmetry. apply length_tag_of.
  - intros c n k m. destruct (decide _) as [[Hlen _]|]; [|discriminate].
    intros [= <-]. rewrite length_drop. lia.
Qed.


(** The test of test/lib/crypto.js, run on the stand-ins. *)
Example plaintext_matches_message :
  Crypto.bind
    (@Crypto.encrypt Crypto.ascii_node Crypto.tagged_sodium Crypto.test_entropy
       (Crypto.MString Crypto.test_message) (Crypto.KHex Crypto.test_secretKey))
    (fun b => @Crypto.decrypt Crypto.ascii_node Crypto.tagged_sodium
                (Crypto.ciphertext b) (Crypto.KHex Crypto.test_secretKey)
                (Crypto.nonce b))
  = Crypto.Ok Crypto.test_message.
Proof. vm_compute. reflexivity. Qed.

Section LogFacts.
Import Log.
Context {P : Primitives}.

Lemma last_or_cons {A : Type} (previous : option A) (x : A) (l : list A) :
  last_or previous (x :: l) = last_or (Some x) l.
Proof.
  unfold last_or. destruct l as [|y l]; [reflexivity|].
  rewrite last_cons_cons.
  destruct (last (y :: l)) eqn:H; [reflexivity|].
  apply last_None in H. discriminate.
Qed.

Lemma hash_chain_snoc (es : list Entry) (e : Entry) :
  forall previous,
    hash_chain previous (es ++ [e])
    = hash_chain previous es && continues e (last_or previous es).
Proof.
  induction es as [|x es IH]; intros previous.
  - cbn. apply andb_comm.
  - cbn [hash_chain app]. rewrite IH, last_or_cons, andb_assoc. reflexivity.
Qed.

Lemma verified_snoc (log : AppendOnlyLog) (es : list Entry) (e : Entry) :
  forall previous,
    verified log previous (es ++ [e])
    = verified log previous es && verify log e (last_or previous es).
Proof.
  induction es as [|x es IH]; intros previous.
  - cbn. apply andb_comm.
  - cbn [verified app]. rewrite IH, last_or_cons, andb_assoc. reflexivity.
Qed.

Lemma verified_readKey (l1 l2 : AppendOnlyLog) (es : list Entry) :
  readKey l1 = readKey l2 ->
  forall previous, verified l1 previous es = verified l2 previous es.
Proof.
  intros Hk. induction es as [|x es IH]; intros previous; [reflexivity|].
  cbn [verified]. rewrite IH. unfold verify. rewrite Hk. reflexivity.
Qed.

(** The next sequence number of a numbered log is its length. *)
Lemma next_sequence (es : list Entry) :
  numbered es ->
  match last es with
  | Some e => S (sequence e)
  | None => 0
  end = length es.
Proof.
  intros Hn. rewrite last_lookup. destruct es as [|x es]; [reflexivity|].
  cbn [length Nat.pred].
  destruct ((x :: es) !! length es) as [e|] eqn:He.
  - rewrite (Hn _ _ He). reflexivity.
  - apply lookup_ge_None in He. cbn in He. lia.
Qed.

Lemma numbered_snoc (es : list Entry) (e : Entry) :
  numbered es -> sequence e = length es -> numbered (es ++ [e]).
Proof.
  intros Hn He i x Hx.
  destruct (decide (i < length es)) as [Hi|Hi].
  - rewrite lookup_app_l in Hx by exact Hi. eauto.
  - rewrite lookup_app_r in Hx by lia.
    destruct (i - length es) as [|k] eqn:Hk; [|destruct k; discriminate].
    injection Hx as <-. lia.
Qed.

Lemma linked_snoc (es : list Entry) (e : Entry) :
  linked es -> previousHash e = hashEntry <$> last es -> linked (es ++ [e]).
Proof.
  intros Hl He i x Hx.
  destruct (decide (i < length es)) as [Hi|Hi].
  - rewrite lookup_app_l in Hx by exact Hi.
    rewrite (Hl _ _ Hx). destruct i as [|j]; [reflexivity|].
    rewrite lookup_app_l by lia. reflexivity.
  - rewrite lookup_app_r in Hx by lia.
    destruct (i - length es) as [|k] eqn:Hk; [|destruct k; discriminate].
    injection Hx as <-. assert (i = length es) as -> by lia.
    rewrite He, last_lookup. destruct es as [|y es]; [reflexivity|].
    cbn [length Nat.pred]. rewrite lookup_app_l by (cbn; lia). reflexivity.
Qed.

(** What a series of appends by the writer keeps true of a log. *)
Lemma appends_invariant (wk : bytes) (payloads : list bytes) :
  forall log,
    writeKey log = Some wk ->
    numbered (entries log) ->
    linked (entries log) ->
    let log' := appends log payloads in
    readKey log' = readKey log
    /\ numbered (entries log')
    /\ linked (entries log')
    /\ length (entries log') = length (entries log) + length payloads
    /\ ((forall s d h, checkSignature (readKey log) s d h (sign wk s d h) = true) ->
        verified log None (entries log) = true ->
        verified log' None (entries log') = true).
Proof.
  induction payloads as [|data payloads IH]; intros log Hwk Hn Hl.
  - cbn. split_and!; auto.
  - destruct log as [rk0 w es]. cbn [writeKey entries readKey] in *. subst w.
    cbn [appends]. unfold append. cbn [writeKey entries readKey].
    set (e := {| sequence := _ |}).
    set (log0 := {| readKey := rk0; writeKey := Some wk; entries := es |}).
    set (log1 := {| readKey := rk0; writeKey := Some wk; entries := es ++ [e] |}).
    assert (Hseq : sequence e = length es) by (apply next_sequence, Hn).
    destruct (IH log1) as (Hk & Hn' & Hl' & Hlen & Hv).
    + reflexivity.
    + apply numbered_snoc; assumption.
    + apply linked_snoc; [assumption|reflexivity].
    + cbn zeta. split_and!; try assumption.
      * rewrite Hlen. cbn [log1 entries]. rewrite length_app. cbn. lia.
      * intros Hsig Hver. apply Hv; [exact Hsig|].
        cbn [log1 entries]. rewrite verified_snoc.
        rewrite (verified_readKey _ log0) by reflexivity. rewrite Hver.
        unfold verify, continues. cbn [log0 readKey e sequence payload
                                        previousHash signature].
        rewrite Hsig. cbn [andb].
        apply bool_decide_eq_true. unfold last_or.
        destruct (last es); reflexivity.
Qed.

(** Any series of entries of a well-formed log that passes the check of
    the hashes is a prefix of the log. *)
Lemma chain_is_prefix (es : list Entry) :
  numbered es -> linked es -> collision_free es ->
  forall es',
    (forall e, In e es' -> In e es) ->
    hash_chain None es' = true ->
    es' `prefix_of` es.
Proof.
  intros Hn Hl Hc es'. induction es' as [|e' es' IH] using rev_ind; intros Hin Hch.
  - apply prefix_nil.
  - rewrite hash_chain_snoc in Hch. apply andb_true_iff in Hch as [Hch He'].
    destruct IH as [rest Hrest]; [|exact Hch|].
    { intros e He. apply Hin, in_app_iff. left. exact He. }
    unfold continues in He'. apply bool_decide_eq_true in He'.
    assert (Hin' : In e' es) by (apply Hin, in_app_iff; right; left; reflexivity).
    apply list_elem_of_In, list_elem_of_lookup in Hin' as [k Hk].
    pose proof (Hl _ _ Hk) as Hprev. rewrite He' in Hprev.
    assert (Hkn : k = length es').
    { unfold last_or in Hprev. destruct (last es') as [t|] eqn:Ht.
      - destruct k as [|j]; [discriminate|].
        destruct (es !! j) as [u|] eqn:Hu; [|discriminate].
        injection Hprev as Hh.
        apply last_Some in Ht as [front ->].
        assert (Htl : es !! length front = Some t).
        { rewrite Hrest, <- app_assoc. apply list_lookup_middle. reflexivity. }
        assert (Hut : t = u).
        { apply Hc; [| |exact Hh].
          - apply list_elem_of_In. eapply list_elem_of_lookup_2. exact Htl.
          - apply list_elem_of_In. eapply list_elem_of_lookup_2. exact Hu. }
        subst u. pose proof (Hn _ _ Hu) as H1. pose proof (Hn _ _ Htl) as H2.
        rewrite length_app. cbn. lia.
      - apply last_None in Ht. subst es'. destruct k as [|j]; [reflexivity|].
        destruct (es !! j) as [u|] eqn:Hu; [discriminate|].
        apply lookup_ge_None in Hu. apply lookup_lt_Some in Hk. lia. }
    subst k. rewrite Hrest in Hk.
    rewrite lookup_app_r in Hk by lia. rewrite Nat.sub_diag in Hk.
    destruct rest as [|x rest]; [discriminate|]. injection Hk as ->.
    exists rest. rewrite Hrest, <- app_assoc. reflexivity.
Qed.

(** C8, amended: in the log a writer builds by appends, the entry at
    position [i] has sequence [i] (so sequences start at 0 and grow by
    exactly 1) and carries the hash of the entry at [i-1] (none at 0), and
    every entry verifies against the one before it when the read key
    verifies the signatures of the write key; and, as long as no two
    entries of the log have the same hash, any series of entries of the
    log that passes the check of the hashes is a prefix of the log: a
    reordering, or the removal of an entry that is not at the end, is
    detected by a hash mismatch (cutting off the end of a log is not). *)
Theorem appended_log_is_a_hash_chain
    (rk wk : bytes) (payloads : list bytes) (es' : list Entry) :
  let log := appends (create rk (Some wk)) payloads in
  numbered (entries log)
  /\ linked (entries log)
  /\ length (entries log) = length payloads
  /\ ((forall s d h, checkSignature rk s d h (sign wk s d h) = true) ->
      verified log None (entries log) = true)
  /\ hash_chain None (entries log) = true
  /\ (collision_free (entries log) ->
      (forall e, In e es' -> In e (entries log)) ->
      hash_chain None es' = true ->
      es' `prefix_of` entries log)
  /\ (collision_free (entries log) ->
      Permutation es' (entries log) ->
      es' <> entries log ->
      hash_chain None es' = false).
Proof.
  intros log.
  destruct (appends_invariant wk payloads (create rk (Some wk)))
    as (Hk & Hn & Hl & Hlen & Hv); try reflexivity.
  { intros i e Hi. destruct i; discriminate Hi. }
  { intros i e Hi. destruct i; discriminate Hi. }
  fold log in Hk, Hn, Hl, Hlen, Hv.
  assert (Hchain : hash_chain None (entries log) = true).
  { clear -Hl. induction (entries log) as [|e es IH] using rev_ind; [reflexivity|].
    rewrite hash_chain_snoc. rewrite IH.
    - cbn [andb]. unfold continues. apply bool_decide_eq_true.
      rewrite (Hl (length es) e) by (apply list_lookup_middle; reflexivity).
      unfold last_or. rewrite last_lookup.
      destruct es as [|y es]; [reflexivity|]. cbn [length Nat.pred].
      rewrite lookup_app_l by (cbn; lia).
      destruct ((y :: es) !! length es) eqn:H; [reflexivity|].
      apply lookup_ge_None in H. cbn in H. lia.
    - intros i x Hx.
      assert (Hi : i < length es) by (eapply lookup_lt_Some; exact Hx).
      rewrite (Hl i x) by (rewrite lookup_app_l by exact Hi; exact Hx).
      destruct i as [|j]; [reflexivity|]. rewrite lookup_app_l by lia. reflexivity. }
  split_and!; try assumption.
  - intros Hsig. apply Hv; [exact Hsig|reflexivity].
  - intros Hc Hin Hch. apply chain_is_prefix; assumption.
  - intros Hc Hperm Hne. destruct (hash_chain None es') eqn:Hch; [|reflexivity].
    exfalso. apply Hne. apply prefix_length_eq.
    + apply chain_is_prefix; try assumption.
      intros e He. eapply Permutation_in; [exact Hperm|exact He].
    + apply Permutation_length in Hperm. lia.
Qed.

End LogFacts.

Lemma plain_signatures_verify (s : nat) (d : Log.bytes) (h : option Log.bytes) :
  @Log.checkSignature Log.plain_primitives Log.sample_key s d h
    (@Log.sign Log.plain_primitives Log.sample_key s d h) = true.
Proof. apply bool_decide_eq_true. reflexivity. Qed.

Lemma sample_log_collision_free :
  @Log.collision_free Log.plain_primitives (Log.entries Log.sample_log).
Proof.
  intros a b Ha Hb Hh. cbn in Ha, Hb.
  destruct Ha as [<-|[<-|[]]], Hb as [<-|[<-|[]]];
    try reflexivity; vm_compute in Hh; discriminate Hh.
Qed.

Lemma appended_log_is_a_hash_chain_witness :
  @Log.verified Log.plain_primitives Log.sample_log None
    (Log.entries Log.sample_log) = true
  /\ Log.sample_truncation `prefix_of` Log.entries Log.sample_log.
Proof.
  destruct (@appended_log_is_a_hash_chain Log.plain_primitives
              Log.sample_key Log.sample_key [[x61]; [x62]] Log.sample_truncation)
    as (_ & _ & _ & Hv & _ & Hp & _).
  split.
  - apply Hv. exact plain_signatures_verify.
  - apply Hp.
    + exact sample_log_collision_free.
    + intros e He. cbn in He. destruct He as [<-|[]]. left. reflexivity.
    + reflexivity.
Defined.

(** C8, as stated, fails: the sample log cut after its first entry is a
    truncation of the log, differs from it, and passes the check of the
    hashes. *)
Lemma truncated_log_passes_the_hash_check :
  Log.sample_truncation `prefix_of` Log.entries Log.sample_log
  /\ Log.sample_truncation <> Log.entries Log.sample_log
  /\ @Log.hash_chain Log.plain_primitives None Log.sample_truncation = true
  /\ ~ @Log.tamper_evident Log.plain_primitives (Log.entries Log.sample_log).
Proof.
  assert (Hp : Log.sample_truncation `prefix_of` Log.entries Log.sample_log).
  { eexists. reflexivity. }
  assert (Hne : Log.sample_truncation <> Log.entries Log.sample_log).
  { intros H. vm_compute in H. discriminate H. }
  split_and!; try assumption; [reflexivity|].
  intros H. specialize (H Log.sample_truncation Hne (or_introl Hp)).
  vm_compute in H. discriminate H.
Qed.

(** Without the condition on hashes, a reordering can go unnoticed: with a
    hash that is the same for every entry, the log with its last two
    entries exchanged passes the check of the hashes. *)
Remark colliding_hash_hides_a_reordering :
  Permutation Log.colliding_log_reordered (Log.entries Log.colliding_log)
  /\ Log.colliding_log_reordered <> Log.entries Log.colliding_log
  /\ @Log.hash_chain Log.colliding_primitives None Log.colliding_log_reordered = true.
Proof.
  split_and!.
  - cbn. apply perm_skip, perm_swap.
  - intros H. vm_compute in H. discriminate H.
  - reflexivity.
Qed.

(** The look-alike object loses its buffer whatever [Buffer.from] does with
    elements that are not numbers. *)
Remark lookalike_object_under_any_conversion
    (coerce : Json.value -> option byte) :
  Json.jsonParseWithBufferSupport coerce (Json.JSON_stringify Json.lookalike_obj)
  = Some (Json.VBuf []).
Proof. reflexivity. Qed.

(** The sample request, received twice, is acted on once; the second
    receipt finds its hash and is dropped. *)
Example sample_request_received_twice :
  Browser.handlings Browser.print_json Browser.plain_digest
    (Browser.createMessageHash Browser.print_json Browser.plain_digest
       Browser.sample_received)
    Browser.boot
    [Browser.Message Browser.sample_received;
     Browser.Message Browser.sample_received] = 1
  /\ snd (Browser.run Browser.print_json Browser.plain_digest Browser.boot
            [Browser.Message Browser.sample_received;
             Browser.Message Browser.sample_received])
     = [Browser.DbAuthorized].
Proof. split; vm_compute; reflexivity. Qed.

(** A node that broadcast the sample request drops it when it comes back. *)
Example own_request_comes_back :
  snd (Browser.run Browser.print_json Browser.plain_digest Browser.boot
         [Browser.RequestAuthorisation "Firefox on Linux"
            "2019-02-01T10:00:00.000Z" "c4a99bc9";
          Browser.Message Browser.sample_received])
  = [Browser.Broadcast Browser.sample_request].
Proof. vm_compute. reflexivity. Qed.

(** A fresh always-on node answers the discovery request with an empty
    body and refuses sign-up. *)
Example fresh_always_on_node :
  AlwaysOn.middleware (AlwaysOn.settings (AlwaysOn.start None)) "/.well-known/dat"
  = [AlwaysOn.SetHeader "Content-Type" "text/plain"; AlwaysOn.End_ ""]
  /\ snd (AlwaysOn.signUp (AlwaysOn.start None) "c4a99bc9")
     = [AlwaysOn.WsSendError "Hypha already exists."; AlwaysOn.WsClose].
Proof. split; reflexivity. Qed.

(** Had the settings held [null], sign-up would have gone through. *)
Example sign_up_on_null_read_key :
  AlwaysOn.signUp (AlwaysOn.start (Some {| AlwaysOn.readKey := Json.VNull |}))
    "c4a99bc9"
  = ({| AlwaysOn.settings := {| AlwaysOn.readKey := Json.VStr "c4a99bc9" |};
        AlwaysOn.settingsFile := {| AlwaysOn.readKey := Json.VStr "c4a99bc9" |};
        AlwaysOn.hyperdbs := {["c4a99bc9"]} ∪ ∅ |},
     [AlwaysOn.CreateHyperdb "c4a99bc9"; AlwaysOn.AddDatabase "c4a99bc9";
      AlwaysOn.OnReady "c4a99bc9"; AlwaysOn.PersistSettings]).
Proof. reflexivity. Qed.

(* ===================================================================== *)
(** * Further properties of lib/utils.js *)
(* ===================================================================== *)

Section JsonExtras.
Import Json.
Variable coerce : value -> option byte.

Lemma reviver_result (k : string) (v r : value) :
  bufferReviver coerce k v = Some r ->
  (is_serialised_buffer v = false /\ r = v) \/ exists bs, r = VBuf bs.
Proof.
  unfold bufferReviver. destruct (is_serialised_buffer v) eqn:Hs.
  - destruct v as [ | | | | | ps | | ]; try discriminate Hs.
    cbn [get_property]. unfold is_serialised_buffer in Hs. cbn in Hs.
    destruct (obj_get "data" ps) as [[ | | | | xs | | | ]|];
      try (rewrite !andb_false_r in Hs; discriminate Hs).
    destruct (Buffer_from_array coerce xs) as [bs|]; [|discriminate].
    intros [= <-]. right. eauto.
  - intros [= <-]. left. auto.
Qed.

Lemma revived_elements_all (P : value -> Prop) (xs : list json) :
  Forall (fun j => forall name r,
            internalize (bufferReviver coerce) name j = Some r -> P r) xs ->
  forall i vs,
    revive_elements (internalize (bufferReviver coerce)) i xs = Some vs ->
    Forall P vs.
Proof.
  induction 1 as [|x xs Hx _ IH]; intros i vs Hvs; cbn in Hvs.
  - injection Hvs as <-. constructor.
  - destruct (internalize _ _ x) as [v|] eqn:Hv; [|discriminate].
    destruct (revive_elements _ _ xs) as [vs'|] eqn:Hvs'; [|discriminate].
    injection Hvs as <-. constructor; eauto.
Qed.

Lemma revived_members_all (P : value -> Prop) (ps : list (string * json)) :
  Forall (fun p => forall name r,
            internalize (bufferReviver coerce) name (snd p) = Some r -> P r) ps ->
  forall vs,
    revive_members (internalize (bufferReviver coerce)) ps = Some vs ->
    Forall (fun p => P (snd p)) vs.
Proof.
  induction 1 as [|p ps Hp _ IH]; intros vs Hvs; cbn in Hvs.
  - injection Hvs as <-. constructor.
  - destruct (internalize _ _ (snd p)) as [v|] eqn:Hv; [|discriminate].
    destruct (revive_members _ ps) as [vs'|] eqn:Hvs'; [|discriminate].
    injection Hvs as <-. constructor; [cbn; eauto|eauto].
Qed.

Lemma internalize_leaves_no_serialised_buffer (j : json) :
  forall name r,
    internalize (bufferReviver coerce) name j = Some r ->
    no_serialised_buffer r = true.
Proof.
  induction j as [ | b | q | s | xs IH | ps IH ] using json_deep_ind;
    intros name r Hr; cbn [internalize] in Hr.
  - injection Hr as <-. reflexivity.
  - injection Hr as <-. reflexivity.
  - injection Hr as <-. reflexivity.
  - injection Hr as <-. reflexivity.
  - destruct (revive_elements _ _ xs) as [vs|] eqn:Hvs; [|discriminate].
    injection Hr as <-. cbn [no_serialised_buffer].
    apply forallb_forall. intros v Hv.
    pose proof (revived_elements_all _ xs IH _ _ Hvs) as Hall.
    rewrite Forall_forall in Hall. apply Hall. apply list_elem_of_In. exact Hv.
  - destruct (revive_members _ ps) as [vs|] eqn:Hvs; [|discriminate].
    apply reviver_result in Hr as [[Hs ->]|[bs ->]]; [|reflexivity].
    cbn [no_serialised_buffer]. rewrite Hs. cbn [negb andb].
    apply forallb_forall. intros p Hp.
    pose proof (revived_members_all _ ps IH _ Hvs) as Hall.
    rewrite Forall_forall in Hall. apply (Hall p). apply list_elem_of_In. exact Hp.
Qed.

(** X1: whenever [jsonParseWithBufferSupport] returns, no plain object of
    the result has the shape of a serialised buffer: every such object of
    the document, at any depth, has become a buffer. *)
Theorem parsed_value_has_no_serialised_buffer (str : json) (r : value) :
  jsonParseWithBufferSupport coerce str = Some r ->
  no_serialised_buffer r = true.
Proof. apply internalize_leaves_no_serialised_buffer. Qed.






End JsonExtras.

Lemma parsed_value_has_no_serialised_buffer_witness :
  Json.jsonParseWithBufferSupport Json.coerce_nan (Json.JSON_stringify Json.test_obj)
  = Some Json.test_obj
  /\ Json.no_serialised_buffer Json.test_obj = true.
Proof.
  split; [reflexivity|].
  exact (parsed_value_has_no_serialised_buffer Json.coerce_nan
           (Json.JSON_stringify Json.test_obj) Json.test_obj eq_refl).
Defined.

(* ===================================================================== *)
(** * Further properties of lib/crypto.js *)
(* ===================================================================== *)

Section CryptoExtras.
Import Json Crypto.
Context {N : Node} {S : Sodium}.

Lemma Buffer_alloc_of_nat (n : nat) : Buffer_alloc (Z.of_nat n) = Ok (repeat x00 n).
Proof.
  unfold Buffer_alloc. destruct (Z.ltb_spec (Z.of_nat n) 0) as [H|_]; [lia|].
  rewrite Nat2Z.id. reflexivity.
Qed.



End CryptoExtras.

(** On a forged ciphertext of 17 bytes, [decrypt] throws nothing and
    reports nothing: it returns the string of the one zero byte it
    allocated for the plaintext. *)
Lemma decrypt_of_unauthentic_ciphertext_witness :
  @Crypto.decrypt Crypto.ascii_node Crypto.tagged_sodium
    Crypto.forged_ciphertext (Crypto.KHex Crypto.test_secretKey) Crypto.zero_nonce
  = Crypto.Ok (String.String Ascii.zero EmptyString).
Proof.
  exact (@decrypt_of_unauthentic_ciphertext Crypto.ascii_node Crypto.tagged_sodium
           Crypto.forged_ciphertext (Crypto.KHex Crypto.test_secretKey)
           Crypto.zero_nonce eq_refl eq_refl
           (le_S_n _ _ (le_n_S _ _ (Nat.le_succ_diag_r 16))) eq_refl).
Defined.

(* ===================================================================== *)
(** * Further properties of always-on/index.js *)
(* ===================================================================== *)

Section AlwaysOnExtras.
Import Json AlwaysOn.

Lemma replicate_settings (st : Server) (key : string) :
  settings (fst (fst (replicate st key))) = settings st
  /\ settingsFile (fst (fst (replicate st key))) = settingsFile st.
Proof. unfold replicate. destruct (_ || _); auto. Qed.

Lemma file_serve (st : Server) (r : request) :
  settingsFile st = settings st ->
  settingsFile (fst (serve st r)) = settings (fst (serve st r)).
Proof.
  intros H. destruct r as [key | | key]; cbn [serve]; [| |exact H].
  - unfold signUp. destruct (negb _); [exact H|].
    destruct (replicate_settings st key) as [H1 H2].
    destruct (replicate st key) as [[st' effects] returned]. cbn [fst] in *.
    destruct returned; [reflexivity|cbn [fst]; congruence].
  - unfold hypha. destruct (is_null _); [exact H|].
    destruct (readKey (settings st)); try exact H.
    destruct (replicate_settings st s) as [H1 H2].
    destruct (replicate st s) as [[st' effects] returned]. cbn [fst] in *.
    cbn [fst]. congruence.
Qed.

(** X6: whatever settings file the node starts from and whatever requests
    it serves, the settings file holds the settings the node has in
    memory. *)
Theorem settings_file_follows_the_settings
    (file : option Settings) (rs : list request) :
  settingsFile (fst (serve_all (start file) rs))
  = settings (fst (serve_all (start file) rs)).
Proof.
  assert (H : settingsFile (start file) = settings (start file))
    by (destruct file; reflexivity).
  revert H. generalize (start file). induction rs as [|r rs IH]; intros st H;
    [exact H|].
  cbn [serve_all]. destruct (serve st r) as [st1 effects1] eqn:H1.
  assert (Hf : settingsFile st1 = settings st1).
  { replace st1 with (fst (serve st r)) by (rewrite H1; reflexivity).
    apply file_serve. exact H. }
  specialize (IH st1 Hf). destruct (serve_all st1 rs). exact IH.
Qed.

Lemma created_app (e1 e2 : list effect) :
  created (e1 ++ e2) = created e1 ++ created e2.
Proof.
  induction e1 as [|[] e1 IH]; cbn; rewrite ?IH; reflexivity.
Qed.





(** X8: on a node whose settings hold [null] for the read key, sign-up
    with a read key that [hyperdbs] already has, or with a name every
    object inherits (such as [constructor]), throws on the undeclared name
    [webSocket]: no database is created and the settings are left as they
    were. *)
Theorem sign_up_throws_on_a_taken_read_key (st : Server) (key : string) :
  readKey (settings st) = VNull ->
  key ∈ hyperdbs st \/ inherited key = true ->
  signUp st key = (st, [ReferenceError "webSocket"]).
Proof.
  intros Hnull Htaken. unfold signUp. rewrite Hnull. cbn [is_null negb].
  unfold replicate.
  assert (Ht : bool_decide (key ∈ hyperdbs st) || inherited key = true).
  { destruct Htaken as [H|H]; [rewrite bool_decide_eq_true_2 by exact H|rewrite H];
      [reflexivity|apply orb_true_r]. }
  rewrite Ht. reflexivity.
Qed.

Lemma fresh_created (rs : list request) :
  forall st,
    settings st = defaultSettings ->
    forall key, In key (created (snd (serve_all st rs))) -> key = "".
Proof.
  induction rs as [|r rs IH]; intros st Hs key Hin; [destruct Hin|].
  cbn [serve_all] in Hin.
  pose proof (settings_serve st r Hs) as Hs1.
  destruct (serve st r) as [st1 effects1] eqn:H1. cbn [fst] in Hs1.
  specialize (IH st1 Hs1 key).
  destruct (serve_all st1 rs) as [st2 effects2]. cbn [snd] in *.
  rewrite created_app in Hin. apply in_app_iff in Hin as [Hin|Hin]; [|auto].
  destruct r as [k | | k]; cbn [serve] in H1.
  - unfold signUp in H1. rewrite Hs in H1. cbn in H1.
    injection H1 as <- <-. destruct Hin.
  - unfold hypha in H1. rewrite Hs in H1. cbn in H1. unfold replicate in H1.
    destruct (_ || _); injection H1 as <- <-; cbn in Hin; [destruct Hin|].
    destruct Hin as [<-|[]]. reflexivity.
  - injection H1 as <- <-. destruct Hin.
Qed.

(** X10: a node started without a settings file never publishes a read
    key, whatever requests it serves: the discovery request is answered
    with an empty body, which the client reads as the absence of the
    record; and the only database such a node ever creates is the one
    whose read key is the empty string. *)
Theorem fresh_node_never_publishes_a_read_key (rs : list request) (key : string) :
  let st := fst (serve_all (start None) rs) in
  middleware (settings st) "/.well-known/dat"
  = [SetHeader "Content-Type" "text/plain"; End_ ""]
  /\ Browser.getReadKeyFromDatDNS (respond (settings st)) = None
  /\ (In key (created (snd (serve_all (start None) rs))) -> key = "").
Proof.
  intros st. unfold st.
  rewrite (settings_serve_all rs (start None) eq_refl).
  split_and!; try reflexivity. apply fresh_created. reflexivity.
Qed.

End AlwaysOnExtras.


Lemma sign_up_throws_on_a_taken_read_key_witness :
  AlwaysOn.signUp (AlwaysOn.start (Some {| AlwaysOn.readKey := Json.VNull |}))
    "constructor"
  = (AlwaysOn.start (Some {| AlwaysOn.readKey := Json.VNull |}),
     [AlwaysOn.ReferenceError "webSocket"]).
Proof.
  exact (sign_up_throws_on_a_taken_read_key
           (AlwaysOn.start (Some {| AlwaysOn.readKey := Json.VNull |}))
           "constructor" eq_refl (or_intror eq_refl)).
Defined.

(* ===================================================================== *)
(** * Further properties of browser/index.js *)
(* ===================================================================== *)

Section BrowserExtras.
Import Json Browser.

Variable JSON_text : json -> string.
Variable sha256_hex : string -> string.




End BrowserExtras.

(* ===================================================================== *)
(** * Properties of native/index.js *)
(* ===================================================================== *)

Section NativeFacts.
Import Native.

Lemma connections_when_connected (streams : list nat) (st : State) :
  connected st = true -> connections st streams = (st, []).
Proof.
  intros H. induction streams as [|stream streams IH]; [reflexivity|].
  cbn [connections]. unfold onConnection. rewrite H, IH. reflexivity.
Qed.

(** X15: however many peers connect, the native client replicates with
    one of them only, the first to connect after it was ready; once it is
    connected, further connections start nothing. *)
Theorem only_the_first_connection_replicates (st : State) (streams : list nat) :
  snd (connections st streams)
  = (if connected st then []
     else match streams with
          | [] => []
          | first :: _ => [Replicate first]
          end)
  /\ connected (fst (connections st streams))
     = connected st || match streams with [] => false | _ => true end.
Proof.
  destruct (connected st) eqn:Hc.
  - rewrite connections_when_connected by exact Hc. cbn. auto.
  - destruct streams as [|first streams]; [cbn; auto|].
    cbn [connections]. unfold onConnection. rewrite Hc.
    rewrite connections_when_connected by reflexivity. cbn. auto.
Qed.

End NativeFacts.

(* ===================================================================== *)
(** * Properties of the settings of the browser node *)
(* ===================================================================== *)

Section SettingsFacts.
Import Json LocalSettings.

Variable coerce : value -> option byte.


Lemma obj_get_obj_set_other (key key' : string) (x : value)
    (ps : list (string * value)) :
  key <> key' -> obj_get key' (obj_set key x ps) = obj_get key' ps.
Proof.
  intros Hne. induction ps as [|[k y] ps IH]; cbn.
  - destruct (String.eqb_spec key' key) as [->|_]; [contradiction|reflexivity].
  - destruct (String.eqb_spec key k) as [<-|Hk]; cbn.
    + destruct (String.eqb_spec key' key) as [->|_]; [contradiction|reflexivity].
    + rewrite IH. reflexivity.
Qed.

(** Reloading the page over the serialisation of a value without
    look-alikes and dates binds [settings] to that value. *)
Lemma reload_parses (v : value) :
  lookalike_free v = true ->
  date_free v = true ->
  loadSettings coerce (page_load (Some (JSON_stringify v)))
  = Returned {| defaultSettings := defaultSettings_literal;
                settings := Parsed v;
                localStorage_settings := Some (JSON_stringify v) |}.
Proof.
  intros Hl Hd. unfold loadSettings. cbn [page_load localStorage_settings].
  unfold jsonParseWithBufferSupport, JSON_parse_with.
  rewrite (roundtrip_settle coerce v Hl), (settle_date_free v Hd). reflexivity.
Qed.



(** X13: a browser whose local storage is empty persists the default
    settings and shows the sign-up interface when the always-on node has
    been started without a settings file, whatever that node has served
    since; facing a node whose settings hold a read key that is not empty,
    it gets that read key from the discovery request. *)
Theorem fresh_browser_shows_the_sign_up_interface
    (rs : list AlwaysOn.request) (key : string) :
  let first_run := {|
    defaultSettings := defaultSettings_literal;
    settings := TheDefaults;
    localStorage_settings := Some (JSON_stringify (VObj defaultSettings_literal))
  |} in
  setInitialState coerce (page_load None)
    (AlwaysOn.respond
       (AlwaysOn.settings (fst (AlwaysOn.serve_all (AlwaysOn.start None) rs))))
  = Returned (first_run, GettingStarted)
  /\ setInitialState coerce (page_load None)
       (AlwaysOn.respond {| AlwaysOn.readKey := VStr key |})
     = Returned (first_run,
                 if String.eqb key "" then GettingStarted else GotReadKey key).
Proof.
  cbn zeta. rewrite (settings_serve_all rs (AlwaysOn.start None) eq_refl).
  split; [reflexivity|].
  unfold setInitialState. cbn.
  unfold Browser.getReadKeyFromDatDNS. cbn.
  destruct (String.eqb key ""); reflexivity.
Qed.

End SettingsFacts.


Section ReadyFacts.
Import Json LocalSettings.

Variable coerce : value -> option byte.
Context {N : Crypto.Node} {NC : Crypto.NodeContract N}.
Context {S : Crypto.Sodium} {SC : Crypto.SodiumContract S}.

(** What [encrypt] returns under a key of the right size. *)
Lemma encrypt_value
    (entropy : nat -> byte) (m : Crypto.message) (secretKey : Crypto.secret_key) :
  length (Crypto.key_buffer secretKey) = Crypto.crypto_secretbox_KEYBYTES ->
  Crypto.encrypt entropy m secretKey
  = Crypto.Ok
      {| Crypto.nonce :=
           Crypto.randombytes_buf entropy
             (repeat x00 Crypto.crypto_secretbox_NONCEBYTES);
         Crypto.ciphertext :=
           Crypto.secretbox (Crypto.Buffer_from_utf8 (Crypto.message_string m))
             (Crypto.randombytes_buf entropy
                (repeat x00 Crypto.crypto_secretbox_NONCEBYTES))
             (Crypto.key_buffer secretKey) |}.
Proof.
  intros Hk. unfold Crypto.encrypt. rewrite !Buffer_alloc_of_nat. cbn [Crypto.bind].
  unfold Crypto.crypto_secretbox_easy, Crypto.randombytes_buf.
  rewrite List.length_map, List.length_seq, !repeat_length, Hk, !Nat.eqb_refl.
  reflexivity.
Qed.

(** What [decrypt] returns on what [encrypt] made. *)
Lemma decrypt_encrypted
    (entropy : nat -> byte) (m : Crypto.message) (secretKey : Crypto.secret_key)
    (b : Crypto.box) :
  Crypto.well_formed (Crypto.message_string m) ->
  length (Crypto.key_buffer secretKey) = Crypto.crypto_secretbox_KEYBYTES ->
  Crypto.encrypt entropy m secretKey = Crypto.Ok b ->
  Crypto.decrypt (Crypto.ciphertext b) secretKey (Crypto.nonce b)
  = Crypto.Ok (Crypto.message_string m).
Proof.
  intros Hwf Hk He. rewrite (encrypt_value entropy m secretKey Hk) in He.
  injection He as <-. cbn [Crypto.nonce Crypto.ciphertext].
  set (n := Crypto.randombytes_buf entropy _).
  assert (Hn : length n = Crypto.crypto_secretbox_NONCEBYTES).
  { unfold n, Crypto.randombytes_buf.
    rewrite List.length_map, List.length_seq. apply repeat_length. }
  unfold Crypto.decrypt. rewrite Hn, Nat.eqb_refl. cbn [negb].
  rewrite Crypto.secretbox_length.
  replace (Z.of_nat (length (Crypto.Buffer_from_utf8 (Crypto.message_string m))
                     + Crypto.crypto_secretbox_MACBYTES)
           - Z.of_nat Crypto.crypto_secretbox_MACBYTES)%Z
    with (Z.of_nat (length (Crypto.Buffer_from_utf8 (Crypto.message_string m))))
    by lia.
  rewrite Buffer_alloc_of_nat. cbn [Crypto.bind].
  unfold Crypto.crypto_secretbox_open_easy.
  rewrite repeat_length, Crypto.secretbox_length, Hn, Hk, !Nat.eqb_refl.
  cbn [andb]. rewrite Crypto.secretbox_open_secretbox by assumption.
  cbn [Crypto.bind snd]. rewrite Crypto.utf8_roundtrip by exact Hwf. reflexivity.
Qed.

(** The first run of a node, up to the database being ready. *)
Lemma first_run_then_ready (r : ready) (b : Crypto.box) :
  localKeys_given r = false ->
  Crypto.encrypt (entropy r) (Crypto.MString (localWriteKeyInHex r))
    (Crypto.KBuffer (localStorageSecretKey r)) = Crypto.Ok b ->
  exists p1 p2,
    loadSettings coerce (page_load None) = Returned p1
    /\ onReady p1 r = Returned p2
    /\ current p2 = VObj (settings_after_ready r b)
    /\ localStorage_settings p2
       = Some (JSON_stringify (VObj (settings_after_ready r b))).
Proof.
  intros Hgiven He. unfold onReady, settings_after_ready. rewrite Hgiven, He.
  destruct (writeKey_given r); eexists; eexists;
    (split; [reflexivity|]); cbn; auto.
Qed.

Lemma settings_after_ready_reload (r : ready) (b : Crypto.box) :
  loadSettings coerce
    (page_load (Some (JSON_stringify (VObj (settings_after_ready r b)))))
  = Returned {| defaultSettings := defaultSettings_literal;
                settings := Parsed (VObj (settings_after_ready r b));
                localStorage_settings :=
                  Some (JSON_stringify (VObj (settings_after_ready r b))) |}.
Proof.
  apply reload_parses; unfold settings_after_ready;
    destruct (writeKey_given r); reflexivity.
Qed.

(** X12: on a first run, once the database is ready, the settings in local
    storage hold the local write key encrypted under the local storage
    key; when the page is loaded again, the nonce and the ciphertext come
    back as buffers, and decrypting them with the same key gives the local
    write key back. *)
Theorem encrypted_local_write_key_survives_a_reload (r : ready) :
  localKeys_given r = false ->
  Crypto.well_formed (localWriteKeyInHex r) ->
  length (localStorageSecretKey r) = Crypto.crypto_secretbox_KEYBYTES ->
  exists p1 p2 p3 b,
    loadSettings coerce (page_load None) = Returned p1
    /\ onReady p1 r = Returned p2
    /\ loadSettings coerce (page_load (localStorage_settings p2)) = Returned p3
    /\ read p3 "localWriteKeyEncrypted" = Returned (Some (box_value b))
    /\ Crypto.decrypt (Crypto.ciphertext b)
         (Crypto.KBuffer (localStorageSecretKey r)) (Crypto.nonce b)
       = Crypto.Ok (localWriteKeyInHex r).
Proof.
  intros Hgiven Hwf Hk.
  pose proof (encrypt_value (entropy r) (Crypto.MString (localWriteKeyInHex r))
                (Crypto.KBuffer (localStorageSecretKey r)) Hk) as He.
  destruct (first_run_then_ready r _ Hgiven He) as (p1 & p2 & H1 & H2 & _ & Hst).
  exists p1, p2. eexists. eexists.
  split; [exact H1|]. split; [exact H2|]. rewrite Hst.
  split; [apply settings_after_ready_reload|].
  split.
  - unfold read, current, settings_after_ready. cbn.
    destruct (writeKey_given r); reflexivity.
  - exact (decrypt_encrypted (entropy r) (Crypto.MString (localWriteKeyInHex r))
             (Crypto.KBuffer (localStorageSecretKey r)) _ Hwf Hk He).
Qed.

(** X14: when the page of a node that has been through a first run is
    loaded again, [setInitialState] takes the node for initialised and not
    authorised, and calls [createDatabase] with the stored read key, the
    stored local read key, and [undefined] for the local write key: the
    settings hold it encrypted, under another name. *)
Theorem reloaded_node_has_no_local_write_key
    (r : ready) (requestPromise : string -> string) :
  localKeys_given r = false ->
  length (localStorageSecretKey r) = Crypto.crypto_secretbox_KEYBYTES ->
  exists p1 p2 p3,
    loadSettings coerce (page_load None) = Returned p1
    /\ onReady p1 r = Returned p2
    /\ setInitialState coerce (page_load (localStorage_settings p2)) requestPromise
       = Returned (p3, InitialisedNode (Some (VStr (dbKeyInHex r)))
                         (Some (VStr (localReadKeyInHex r))) None).
Proof.
  intros Hgiven Hk.
  pose proof (encrypt_value (entropy r) (Crypto.MString (localWriteKeyInHex r))
                (Crypto.KBuffer (localStorageSecretKey r)) Hk) as He.
  set (b := {| Crypto.nonce := _ |}) in He.
  destruct (first_run_then_ready r b Hgiven He) as (p1 & p2 & H1 & H2 & _ & Hst).
  exists p1, p2,
    {| defaultSettings := defaultSettings_literal;
       settings := Parsed (VObj (settings_after_ready r b));
       localStorage_settings :=
         Some (JSON_stringify (VObj (settings_after_ready r b))) |}.
  split; [exact H1|]. split; [exact H2|].
  rewrite Hst. unfold setInitialState.
  rewrite settings_after_ready_reload. cbn [and_then].
  unfold read, current, settings_after_ready. cbn.
  destruct (writeKey_given r); reflexivity.
Qed.

End ReadyFacts.

Lemma encrypted_local_write_key_survives_a_reload_witness :
  exists p1 p2 p3 b,
    LocalSettings.loadSettings Json.coerce_nan (LocalSettings.page_load None)
    = LocalSettings.Returned p1
    /\ @LocalSettings.onReady Crypto.ascii_node Crypto.tagged_sodium p1
         LocalSettings.sample_ready = LocalSettings.Returned p2
    /\ LocalSettings.loadSettings Json.coerce_nan
         (LocalSettings.page_load (LocalSettings.localStorage_settings p2))
       = LocalSettings.Returned p3
    /\ LocalSettings.read p3 "localWriteKeyEncrypted"
       = LocalSettings.Returned (Some (LocalSettings.box_value b))
    /\ @Crypto.decrypt Crypto.ascii_node Crypto.tagged_sodium (Crypto.ciphertext b)
         (Crypto.KBuffer (Crypto.Buffer_from_hex Crypto.test_secretKey))
         (Crypto.nonce b)
       = Crypto.Ok "5a7dd4be".
Proof.
  exact (@encrypted_local_write_key_survives_a_reload Json.coerce_nan
           Crypto.ascii_node ascii_node_contract
           Crypto.tagged_sodium tagged_sodium_contract
           LocalSettings.sample_ready eq_refl I eq_refl).
Defined.

Lemma reloaded_node_has_no_local_write_key_witness :
  exists p1 p2 p3,
    LocalSettings.loadSettings Json.coerce_nan (LocalSettings.page_load None)
    = LocalSettings.Returned p1
    /\ @LocalSettings.onReady Crypto.ascii_node Crypto.tagged_sodium p1
         LocalSettings.sample_ready = LocalSettings.Returned p2
    /\ LocalSettings.setInitialState Json.coerce_nan
         (LocalSettings.page_load (LocalSettings.localStorage_settings p2))
         (fun _ => "")
       = LocalSettings.Returned
           (p3, LocalSettings.InitialisedNode (Some (Json.VStr "c4a99bc9"))
                  (Some (Json.VStr "0b77c7fc")) None).
Proof.
  exact (@reloaded_node_has_no_local_write_key Json.coerce_nan
           Crypto.ascii_node Crypto.tagged_sodium
           LocalSettings.sample_ready (fun _ => "") eq_refl eq_refl).
Defined.
